(** * Key-insights block of the CSV exploration dashboard (app.py)

    A shallow embedding of the part of [app.py] that computes the five
    "Key Insights" (lines 63-114), together with the variables it inherits
    from the exploratory section (lines 39, 48 and 53).

    Conventions of the embedding:
    - a pandas column is a [Series] tagged with its dtype; a missing cell
      (NaN, None, NaT) is [None];
    - a numeric cell is the number written in the file, an exact rational
      ([Q]); where the script computes with the cells (the quartiles and
      bounds of lines 91-94, the means of line 109) the arithmetic is that
      of binary64, on the float nearest to each cell, with its rounding,
      infinities and NaN; correlations are handed over by a parameter and
      frequencies are ratios of counts, both kept as rationals; an insight
      carries the number itself, not the text that [st.write] formats from
      it;
    - a Python exception is a [Raise] result; the script halts at the first
      uncaught one;
    - the table [df] is the one piece of mutable state (line 103 assigns to
      it), so the script is written in a state-and-error monad over it;
    - library calls whose result the code only consumes (Pearson correlation,
      the order in which [sort_values] leaves equal keys, the scalar datetime
      parser) are parameters of the development. *)

From Stdlib Require Import List Ascii String ZArith QArith Qabs Qround Bool Arith Lia Lra Lqa.
From Stdlib Require Import Permutation Sorted Floats.
Import ListNotations.

Local Open Scope nat_scope.

(** ** Exceptions and the error monad *)

Inductive exn : Type :=
| NameError
| ValueError
| KeyError
| TypeError.

Inductive result (A : Type) : Type :=
| Ok (a : A)
| Raise (e : exn).

Arguments Ok {A} a.
Arguments Raise {A} e.

Definition bind {A B : Type} (r : result A) (k : A -> result B) : result B :=
  match r with
  | Ok a => k a
  | Raise e => Raise e
  end.

Notation "x <- e ;; k" := (bind e (fun x => k))
  (at level 61, e at next level, right associativity).

(** ** Data model: columns and tables *)

(** A column with its dtype.  [Float64] stands for every [np.number] dtype. *)
Inductive Series : Type :=
| Float64 (vals : list (option Q))
| Object (vals : list (option string))
| Datetime64 (vals : list (option Z))
| Boolean (vals : list bool).

(** Columns in declaration order, each under its name. *)
Definition DataFrame : Type := list (string * Series).

Definition columns (df : DataFrame) : list string := map fst df.

Definition is_number (s : Series) : bool :=
  match s with Float64 _ => true | _ => false end.

Definition is_object (s : Series) : bool :=
  match s with Object _ => true | _ => false end.

Definition is_datetime_or_object (s : Series) : bool :=
  match s with Datetime64 _ | Object _ => true | _ => false end.

(** [df.select_dtypes(include=...).columns] *)
Definition select_dtypes (include : Series -> bool) (df : DataFrame) : list string :=
  map fst (filter (fun c => include (snd c)) df).

(** A Python dict (and the column store of a DataFrame) in insertion order:
    storing under an existing key replaces the value where it stands,
    storing under a new key appends it. *)
Fixpoint assoc_set {V : Type} (d : list (string * V)) (k : string) (v : V)
    : list (string * V) :=
  match d with
  | [] => [(k, v)]
  | (k', v') :: rest =>
      if String.eqb k' k then (k', v) :: rest
      else (k', v') :: assoc_set rest k v
  end.

(** [d[k]]: KeyError when the key is absent. *)
Fixpoint assoc_get {V : Type} (d : list (string * V)) (k : string) : result V :=
  match d with
  | [] => Raise KeyError
  | (k', v) :: rest => if String.eqb k' k then Ok v else assoc_get rest k
  end.

(** [df[col]] *)
Definition getitem (df : DataFrame) (col : string) : result Series :=
  assoc_get df col.

(** [df[col] = s] *)
Definition setitem (df : DataFrame) (col : string) (s : Series) : DataFrame :=
  assoc_set df col s.

(** [series.dropna()] on the cells of a column. *)
Fixpoint dropna {A : Type} (l : list (option A)) : list A :=
  match l with
  | [] => []
  | Some x :: rest => x :: dropna rest
  | None :: rest => dropna rest
  end.

(** Filling a dict from the columns named by [cols], one store per name:
    the shape shared by the dict comprehension of lines 82-83 and the loop of
    lines 90-95.  [f] computes the stored value from the column. *)
Fixpoint fill_dict {V : Type} (f : Series -> result V) (df : DataFrame)
    (cols : list string) (d : list (string * V)) : result (list (string * V)) :=
  match cols with
  | [] => Ok d
  | col :: rest =>
      s <- getitem df col ;;
      v <- f s ;;
      fill_dict f df rest (assoc_set d col v)
  end.

Definition count_none {A : Type} (l : list (option A)) : nat :=
  List.length (filter (fun c => match c with None => true | Some _ => false end) l).

(** [series.isnull().sum()] *)
Definition isnull_sum (s : Series) : nat :=
  match s with
  | Float64 vals => count_none vals
  | Object vals => count_none vals
  | Datetime64 vals => count_none vals
  | Boolean _ => 0
  end.

(** [df.isnull().sum()]: a series of counts labelled by column name. *)
Definition isnull_sums (df : DataFrame) : list (string * nat) :=
  map (fun c => (fst c, isnull_sum (snd c))) df.

(** ** Maxima: [Series.max], [Series.idxmax] and the builtin [max] *)

(** Left-to-right scan that keeps the current best and replaces it only by a
    strictly greater key: the first maximal entry wins. *)
Fixpoint argmax_from {A K : Type} (gt : K -> K -> bool)
    (best : A * K) (l : list (A * K)) : A * K :=
  match l with
  | [] => best
  | x :: rest => argmax_from gt (if gt (snd x) (snd best) then x else best) rest
  end.

Definition first_max {A K : Type} (gt : K -> K -> bool) (l : list (A * K))
    : option (A * K) :=
  match l with
  | [] => None
  | x :: rest => Some (argmax_from gt x rest)
  end.

(** [series.idxmax()]: label of the first occurrence of the maximum;
    ValueError on an empty series. *)
Definition idxmax {A K : Type} (gt : K -> K -> bool) (l : list (A * K)) : result A :=
  match first_max gt l with
  | Some b => Ok (fst b)
  | None => Raise ValueError
  end.

(** [series.max()]: NaN ([None]) on an empty series. *)
Definition series_max {A K : Type} (gt : K -> K -> bool) (l : list (A * K)) : option K :=
  option_map snd (first_max gt l).

(** [max(d, key=d.get)] over a dict in insertion order; ValueError when the
    dict is empty. *)
Definition py_max {A K : Type} (gt : K -> K -> bool) (d : list (A * K)) : result A :=
  match first_max gt d with
  | Some b => Ok (fst b)
  | None => Raise ValueError
  end.

Definition gt_nat (a b : nat) : bool := b <? a.

(** ** Insight 2: column with most missing data (lines 74-77) *)

Definition insight_missing (df : DataFrame) : result (option (string * nat)) :=
  match series_max gt_nat (isnull_sums df) with
  | Some m =>
      if 0 <? m then
        miss_col <- idxmax gt_nat (isnull_sums df) ;;
        s <- getitem df miss_col ;;
        Ok (Some (miss_col, isnull_sum s))
      else Ok None
  | None => Ok None
  end.

(** ** Numbers with NaN *)

Definition Qltb (a b : Q) : bool := negb (Qle_bool b a).

Definition Qgtb (a b : Q) : bool := Qltb b a.

(** [a < b] on floats: false as soon as one side is NaN. *)
Definition lt_nan (a b : option Q) : bool :=
  match a, b with
  | Some x, Some y => Qltb x y
  | _, _ => false
  end.

Definition gt_nan (a b : option Q) : bool := lt_nan b a.

Definition lift2 (f : Q -> Q -> Q) (a b : option Q) : option Q :=
  match a, b with
  | Some x, Some y => Some (f x y)
  | _, _ => None
  end.

Definition mul_nan : option Q -> option Q -> option Q := lift2 Qmult.

(** A float series without its NaN entries, labels kept. *)
Fixpoint dropna_labelled {A : Type} (l : list (A * option Q)) : list (A * Q) :=
  match l with
  | [] => []
  | (a, Some x) :: rest => (a, x) :: dropna_labelled rest
  | (_, None) :: rest => dropna_labelled rest
  end.

(** [series.max()] and [series.idxmax()] on a float series: NaN entries are
    skipped. *)
Definition max_float {A : Type} (l : list (A * option Q)) : option Q :=
  series_max Qgtb (dropna_labelled l).

Definition idxmax_float {A : Type} (l : list (A * option Q)) : result A :=
  idxmax Qgtb (dropna_labelled l).

(** ** Insight 1: most correlated feature pair (lines 48, 68-71) *)

(** The frame returned by [DataFrame.corr()]: one entry per column label,
    holding that column's cells under their row labels. *)
Definition CorrFrame : Type := list (string * list (string * option Q)).

(** [corr.abs()] *)
Definition frame_abs (m : CorrFrame) : CorrFrame :=
  map (fun c => (fst c, map (fun e => (fst e, option_map Qabs (snd e))) (snd c))) m.

(** [frame.unstack()]: one series indexed by (column label, row label),
    columns outermost. *)
Definition unstack (m : CorrFrame) : list ((string * string) * option Q) :=
  flat_map (fun c => map (fun e => ((fst c, fst e), snd e)) (snd c)) m.

(** [cor_pairs[cor_pairs < 1]] *)
Definition below_one (l : list ((string * string) * option Q))
    : list ((string * string) * option Q) :=
  filter (fun e => lt_nan (snd e) (Some 1%Q)) l.

(** [df[numeric_cols]]: the numeric columns, in declaration order. *)
Fixpoint numeric_frame (df : DataFrame) : list (string * list (option Q)) :=
  match df with
  | [] => []
  | (name, Float64 vals) :: rest => (name, vals) :: numeric_frame rest
  | _ :: rest => numeric_frame rest
  end.

(** ** Insight 3: most imbalanced category (lines 81-85) *)

Fixpoint count_eqb {A : Type} (eqb : A -> A -> bool) (v : A) (l : list A) : nat :=
  match l with
  | [] => 0
  | x :: rest => (if eqb x v then 1 else 0) + count_eqb eqb v rest
  end.

(** Distinct values, each at its first occurrence. *)
Fixpoint distinct {A : Type} (eqb : A -> A -> bool) (l : list A) : list A :=
  match l with
  | [] => []
  | x :: rest => x :: filter (fun y => negb (eqb x y)) (distinct eqb rest)
  end.

(** [count / total] as a rational, for a positive [total]. *)
Definition ratio (count total : nat) : Q :=
  Z.of_nat count # Pos.of_nat total.

(** [series.value_counts(normalize=True)]: the relative frequency of each
    distinct non-missing value.  (pandas lists them by descending count; the
    code only takes the maximum.) *)
Definition value_counts_normalized {A : Type} (eqb : A -> A -> bool)
    (vals : list (option A)) : list (A * option Q) :=
  let xs := dropna vals in
  map (fun v => (v, Some (ratio (count_eqb eqb v xs) (List.length xs)))) (distinct eqb xs).

(** [series.value_counts(normalize=True).max()] *)
Definition top_frequency (s : Series) : option Q :=
  match s with
  | Float64 vals => max_float (value_counts_normalized Qeq_bool vals)
  | Object vals => max_float (value_counts_normalized String.eqb vals)
  | Datetime64 vals => max_float (value_counts_normalized Z.eqb vals)
  | Boolean vals => max_float (value_counts_normalized Bool.eqb (map Some vals))
  end.

(** [{col: df[col].value_counts(normalize=True).max() for col in cols}] *)
Definition cat_counts_from (df : DataFrame) (cols : list string)
    : result (list (string * option Q)) :=
  fill_dict (fun s => Ok (top_frequency s)) df cols [].

Definition insight_imbalance (categorical_cols : list string) (df : DataFrame)
    : result (option (string * option Q)) :=
  match categorical_cols with
  | [] => Ok None
  | _ :: _ =>
      cat_counts <- cat_counts_from df categorical_cols ;;
      most_imbalanced <- py_max gt_nan cat_counts ;;
      dominance <- assoc_get cat_counts most_imbalanced ;;
      Ok (Some (most_imbalanced, mul_nan dominance (Some 100%Q)))
  end.

(** ** Binary floating point *)

Definition Z2SF (z : Z) : spec_float :=
  match z with
  | Z0 => S754_zero false
  | Zpos p => S754_finite false p 0
  | Zneg p => S754_finite true p 0
  end.

(** The binary64 value of a cell: the float nearest to the number (ties to
    even, infinite beyond the range).  It is what [read_csv] stores for a
    decimal, and what an int64 cell becomes when numpy computes with it. *)
Definition float64 (q : Q) : float :=
  let r := Qred q in
  SF2Prim (SFdiv prec emax (Z2SF (Qnum r)) (S754_finite false (Qden r) 0)).

(** A cell as numpy sees it: a missing cell is NaN. *)
Definition cell_float (c : option Q) : float :=
  match c with
  | Some q => float64 q
  | None => nan
  end.

(** ** Insight 4: outlier detection by the IQR rule (lines 89-97) *)

Fixpoint insert_sorted (x : float) (l : list float) : list float :=
  match l with
  | [] => [x]
  | y :: rest => if (x <=? y)%float then x :: l else y :: insert_sorted x rest
  end.

Definition sort_asc (l : list float) : list float := fold_right insert_sorted [] l.

(** numpy's [_lerp]: [a + (b - a) t], taken from the upper end,
    [b - (b - a) (1 - t)], when [t >= 0.5]. *)
Definition lerp (a b t : float) : float :=
  let diff_b_a := (b - a)%float in
  if (0.5 <=? t)%float then (b - diff_b_a * (1 - t))%float
  else (a + diff_b_a * t)%float.

(** [series.quantile(q)] with the default linear interpolation, as pandas
    hands it to [np.percentile]: the NaN cells are left out; on the sorted
    values [x_0 .. x_(n-1)] the virtual index is [h = q (n - 1)], the two
    neighbours are [x_lo] and [x_hi] with [lo = floor h] and
    [hi = min (lo + 1) (n - 1)], the weight is [h - lo], and the result is
    their [lerp]; NaN when there is no value.  The index and the weight are
    exact in binary64 for [q] a multiple of 1/4 and fewer than 2^51 rows, so
    they are computed on rationals.  The cells are converted before they
    are interpolated; numpy subtracts the integers of an int64 column before
    converting the difference, which gives the same float as long as the
    cells are within 2^53 in size. *)
Definition quantile (q : Q) (vals : list (option Q)) : float :=
  let xs := sort_asc (map float64 (dropna vals)) in
  match xs with
  | [] => nan
  | x0 :: _ =>
      let n := List.length xs in
      let h := (q * inject_Z (Z.of_nat (n - 1)))%Q in
      let lo := Z.to_nat (Qfloor h) in
      let hi := Nat.min (lo + 1) (n - 1) in
      let gamma := float64 (h - inject_Z (Z.of_nat lo)) in
      lerp (nth lo xs x0) (nth hi xs x0) gamma
  end.

(** [(col < Q1 - 1.5 * IQR) | (col > Q3 + 1.5 * IQR)], cell by cell. *)
Definition outlier_mask (Q1 Q3 : float) (v : float) : bool :=
  let IQR := (Q3 - Q1)%float in
  (v <? Q1 - 1.5 * IQR)%float || (Q3 + 1.5 * IQR <? v)%float.

(** The body of the loop at lines 91-94 for one numeric column. *)
Definition count_outliers (vals : list (option Q)) : nat :=
  let Q1 := quantile (1 # 4) vals in
  let Q3 := quantile (3 # 4) vals in
  List.length (filter (outlier_mask Q1 Q3) (map cell_float vals)).

(** The cells of a numeric column; arithmetic on any other dtype is a
    TypeError.  [numeric_cols] names numeric columns only. *)
Definition numeric_values (s : Series) : result (list (option Q)) :=
  match s with
  | Float64 vals => Ok vals
  | _ => Raise TypeError
  end.

(** The outlier count of one column as the loop body computes it. *)
Definition column_outliers (s : Series) : result nat :=
  vals <- numeric_values s ;;
  Ok (count_outliers vals).

(** The loop of lines 89-95, filling the dict [outlier_counts]. *)
Definition outlier_counts_from (df : DataFrame) (cols : list string)
    : result (list (string * nat)) :=
  fill_dict column_outliers df cols [].

Definition insight_outliers (numeric_cols : list string) (df : DataFrame)
    : result (option (string * nat)) :=
  outlier_counts <- outlier_counts_from df numeric_cols ;;
  most_outliers <- py_max gt_nat outlier_counts ;;
  n <- assoc_get outlier_counts most_outliers ;;
  Ok (Some (most_outliers, n)).

(** ** Insight 5: time-based trend (lines 100-114), the parser-free part *)

(** Cells of a datetime column are integer timestamps; NaT is [None]. *)
Definition datetime_values (s : Series) : result (list (option Z)) :=
  match s with
  | Datetime64 vals => Ok vals
  | _ => Raise TypeError
  end.

(** [df[[time_col, y]].dropna()]: the rows where both cells are present. *)
Fixpoint dropna_rows (t : list (option Z)) (y : list (option Q)) : list (Z * Q) :=
  match t, y with
  | Some d :: t', Some v :: y' => (d, v) :: dropna_rows t' y'
  | _ :: t', _ :: y' => dropna_rows t' y'
  | _, _ => []
  end.

Fixpoint insert_key (x : Z) (l : list Z) : list Z :=
  match l with
  | [] => [x]
  | y :: rest =>
      if (x <? y)%Z then x :: l
      else if (x =? y)%Z then l
      else y :: insert_key x rest
  end.

(** The group keys of [groupby]: distinct, ascending. *)
Definition group_keys (l : list Z) : list Z := fold_right insert_key [] l.

(** The running sum of pandas' [group_mean]: Kahan summation, the
    compensation reset when it is NaN. *)
Fixpoint kahan_sum (sumx compensation : float) (l : list float) : float :=
  match l with
  | [] => sumx
  | val :: rest =>
      let y := (val - compensation)%float in
      let t := (sumx + y)%float in
      let c := (t - sumx - y)%float in
      kahan_sum t (if (c =? c)%float then c else 0%float) rest
  end.

(** An integer count as a binary64 value. *)
Definition Z2float (z : Z) : float := SF2Prim (binary_normalize prec emax z 0 false).

(** The mean of one group: the compensated sum over the number of values. *)
Definition mean (l : list float) : float :=
  (kahan_sum 0 0 l / Z2float (Z.of_nat (List.length l)))%float.

(** The values of [y] in the rows of one group, in row order. *)
Definition group_values (rows : list (Z * Q)) (d : Z) : list Q :=
  map snd (filter (fun r => (fst r =? d)%Z) rows).

(** [rows.groupby(time_col)[y].mean().reset_index()] *)
Definition groupby_mean (rows : list (Z * Q)) : list (Z * float) :=
  map (fun d => (d, mean (map float64 (group_values rows d)))) (group_keys (map fst rows)).

(** What the time-trend expander plots: the two column names and the
    points of the line. *)
Definition Trend : Type := (string * string * list (Z * float))%type.

(** Lines 108-109. *)
Definition df_time (df : DataFrame) (time_col y : string) : result (list (Z * float)) :=
  t <- getitem df time_col ;;
  ys <- getitem df y ;;
  tv <- datetime_values t ;;
  yv <- numeric_values ys ;;
  Ok (groupby_mean (dropna_rows tv yv)).

(** ** The report *)

Record InsightReport : Type := {
  correlated : option (string * string * option Q);
  missing : option (string * nat);
  imbalance : option (string * option Q);
  outliers : option (string * nat);
  trend : option Trend
}.

(** ** Stand-ins for the library parameters, used by the worked examples *)

(** A stable insertion sort by descending value, NaN last: one admissible
    behaviour of [sort_values(ascending=False)]. *)
Fixpoint insert_desc (x : (string * string) * option Q)
    (l : list ((string * string) * option Q)) : list ((string * string) * option Q) :=
  match l with
  | [] => [x]
  | y :: rest =>
      match snd x, snd y with
      | Some a, Some b => if Qle_bool b a then x :: l else y :: insert_desc x rest
      | Some _, None => x :: l
      | None, _ => y :: insert_desc x rest
      end
  end.

Definition sort_desc (l : list ((string * string) * option Q))
    : list ((string * string) * option Q) :=
  fold_right insert_desc [] l.

Definition digit (c : Ascii.ascii) : option Z :=
  let n := Ascii.nat_of_ascii c in
  if (48 <=? n) && (n <=? 57) then Some (Z.of_nat (n - 48)) else None.

Fixpoint number (cs : list Ascii.ascii) (acc : Z) : option Z :=
  match cs with
  | [] => Some acc
  | c :: rest =>
      match digit c with
      | Some d => number rest (10 * acc + d)%Z
      | None => None
      end
  end.

(** Calendar dates written YYYY-MM-DD, as the integer YYYYMMDD (which
    orders them chronologically); anything else does not parse. *)
Definition parse_iso_date (s : string) : option Z :=
  match list_ascii_of_string s with
  | [y1; y2; y3; y4; s1; m1; m2; s2; d1; d2] =>
      if Ascii.eqb s1 "-"%char && Ascii.eqb s2 "-"%char then
        match number [y1; y2; y3; y4] 0, number [m1; m2] 0, number [d1; d2] 0 with
        | Some y, Some m, Some d =>
            if ((1 <=? m) && (m <=? 12) && (1 <=? d) && (d <=? 31))%Z
            then Some (y * 10000 + m * 100 + d)%Z
            else None
        | _, _, _ => None
        end
      else None
  | _ => None
  end.

Fixpoint cells_eqb (x y : list (option Q)) : bool :=
  match x, y with
  | [], [] => true
  | Some a :: x', Some b :: y' => Qeq_bool a b && cells_eqb x' y'
  | None :: x', None :: y' => cells_eqb x' y'
  | _, _ => false
  end.

(** Pearson's r, tabulated for the columns of the worked examples.  The
    columns [1,2,3] and [2,4,6] are collinear, and either has r = 1/2 with
    [1,3,2]; r(x, x) = 1 for each of the three.  NaN elsewhere. *)
Definition pearson_table (x y : list (option Q)) : option Q :=
  let collinear := fun c =>
    cells_eqb c [Some 1%Q; Some 2%Q; Some 3%Q]
    || cells_eqb c [Some 2%Q; Some 4%Q; Some 6%Q] in
  let other := fun c => cells_eqb c [Some 1%Q; Some 3%Q; Some 2%Q] in
  if (collinear x && collinear y) || (other x && other y) then Some 1%Q
  else if (collinear x && other y) || (other x && collinear y) then Some (1 # 2)
  else None.

(** ** The script, over its library parameters *)

Section KeyInsights.

(** [Series.sort_values(ascending=False)] on the unstacked correlations.
    The default algorithm is not stable, so the relative order of equal
    values is left open: any rearrangement of the entries may be returned. *)
Variable sort_values :
  list ((string * string) * option Q) -> list ((string * string) * option Q).

(** Pearson's correlation coefficient of two columns, as [DataFrame.corr]
    fills each cell with it; NaN is [None]. *)
Variable pearson : list (option Q) -> list (option Q) -> option Q.

(** The scalar datetime parser behind [pd.to_datetime]. *)
Variable parse_datetime : string -> option Z.

(** [frame.corr()]: the cell at row [r], column [c] is [pearson r c]. *)
Definition DataFrame_corr (cols : list (string * list (option Q))) : CorrFrame :=
  map (fun c => (fst c, map (fun r => (fst r, pearson (snd r) (snd c))) cols)) cols.

(** Lines 68-71.  [corr] is bound only when line 48 ran. *)
Definition insight_correlated (corr : option CorrFrame)
    : result (option (string * string * option Q)) :=
  match corr with
  | None => Raise NameError
  | Some m =>
      let cor_pairs := sort_values (unstack (frame_abs m)) in
      let cor_pairs := below_one cor_pairs in
      top_pair <- idxmax_float cor_pairs ;;
      Ok (Some (fst top_pair, snd top_pair, max_float cor_pairs))
  end.

(** [pd.to_datetime] on the cells of a text column: every present cell must
    parse, a missing cell becomes NaT. *)
Fixpoint parse_all (vals : list (option string)) : option (list (option Z)) :=
  match vals with
  | [] => Some []
  | None :: rest => option_map (cons None) (parse_all rest)
  | Some s :: rest =>
      match parse_datetime s, parse_all rest with
      | Some d, Some ds => Some (Some d :: ds)
      | _, _ => None
      end
  end.

(** [pd.to_datetime(series)] with the default [errors='raise']. *)
Definition to_datetime (s : Series) : result Series :=
  match s with
  | Datetime64 vals => Ok (Datetime64 vals)
  | Object vals =>
      match parse_all vals with
      | Some ds => Ok (Datetime64 ds)
      | None => Raise ValueError
      end
  | Float64 vals => Ok (Datetime64 (map (option_map Qfloor) vals))
  | Boolean _ => Raise TypeError
  end.

(** The body of the [try] at lines 103-111 for one candidate column: the
    result of the body and the table it leaves behind. *)
Definition try_column (numeric_cols : list string) (col : string) (df : DataFrame)
    : result (option Trend) * DataFrame :=
  match (s <- getitem df col ;; to_datetime s) with
  | Raise e => (Raise e, df)
  | Ok parsed =>
      let df' := setitem df col parsed in
      let time_col := col in
      (match numeric_cols with
       | [] => Ok None
       | y :: _ =>
           points <- df_time df' time_col y ;;
           Ok (Some (time_col, y, points))
       end, df')
  end.

(** The loop of lines 101-114: [break] after the first column whose body
    completes, [continue] after any exception. *)
Fixpoint trend_loop (numeric_cols : list string) (cols : list string) (df : DataFrame)
    : option Trend * DataFrame :=
  match cols with
  | [] => (None, df)
  | col :: rest =>
      match try_column numeric_cols col df with
      | (Ok t, df') => (t, df')
      | (Raise _, df') => trend_loop numeric_cols rest df'
      end
  end.

Definition insight_trend (numeric_cols : list string) (df : DataFrame)
    : option Trend * DataFrame :=
  let datetime_cols := select_dtypes is_datetime_or_object df in
  trend_loop numeric_cols datetime_cols df.

(** Lines 39-114 without the charts: the variables of the exploratory
    section, then the five insights in order.  The first uncaught exception
    ends the run; the table is returned as the run leaves it. *)
Definition key_insights (df : DataFrame) : result InsightReport * DataFrame :=
  let numeric_cols := select_dtypes is_number df in
  let corr :=
    match numeric_cols with
    | [] => None
    | _ :: _ => Some (DataFrame_corr (numeric_frame df))
    end in
  let categorical_cols := select_dtypes is_object df in
  let first_four :=
    i1 <- insight_correlated corr ;;
    i2 <- insight_missing df ;;
    i3 <- insight_imbalance categorical_cols df ;;
    i4 <- insight_outliers numeric_cols df ;;
    Ok (i1, i2, i3, i4) in
  match first_four with
  | Raise e => (Raise e, df)
  | Ok (i1, i2, i3, i4) =>
      let (i5, df') := insight_trend numeric_cols df in
      (Ok {| correlated := i1; missing := i2; imbalance := i3;
             outliers := i4; trend := i5 |}, df')
  end.

(** In the spec's words: every non-missing value of the column parses. *)
Definition fully_parses (vals : list (option string)) : Prop :=
  forall s, In (Some s) vals -> parse_datetime s <> None.

(** A column the time trend can use: datetime-typed, or text that parses
    in full. *)
Definition usable_as_datetime (s : Series) : Prop :=
  match s with
  | Datetime64 _ => True
  | Object vals => fully_parses vals
  | _ => False
  end.

(** The timestamps of a usable column, cell by cell. *)
Definition parsed_cells (s : Series) : list (option Z) :=
  match s with
  | Datetime64 vals => vals
  | Object vals =>
      map (fun v => match v with Some x => parse_datetime x | None => None end) vals
  | _ => []
  end.

(** The trend of the date column [time_col], holding the timestamps [tv],
    against the first numeric column of [df]. *)
Definition trend_of (df : DataFrame) (time_col : string) (tv : list (option Z))
    : option Trend :=
  match numeric_frame df with
  | [] => None
  | (y, yv) :: _ => Some (time_col, y, groupby_mean (dropna_rows tv yv))
  end.

End KeyInsights.

(** ** The cleaning stage (lines 27-35) *)

Definition is_none {A : Type} (c : option A) : bool :=
  match c with None => true | Some _ => false end.

(** [len(series)] *)
Definition series_length (s : Series) : nat :=
  match s with
  | Float64 vals => List.length vals
  | Object vals => List.length vals
  | Datetime64 vals => List.length vals
  | Boolean vals => List.length vals
  end.

(** [len(df)]: the columns of a frame share their length. *)
Definition nrows (df : DataFrame) : nat :=
  match df with
  | [] => 0
  | (_, s) :: _ => series_length s
  end.

(** [series.isnull().any()] *)
Definition series_hasnull (s : Series) : bool :=
  match s with
  | Float64 vals => existsb is_none vals
  | Object vals => existsb is_none vals
  | Datetime64 vals => existsb is_none vals
  | Boolean _ => false
  end.

(** [df.isnull().values.any()] (line 27) *)
Definition isnull_any (df : DataFrame) : bool :=
  existsb (fun c => series_hasnull (snd c)) df.

(** The cell of row [i] is missing. *)
Definition cell_isnull (s : Series) (i : nat) : bool :=
  match s with
  | Float64 vals => match nth_error vals i with Some None => true | _ => false end
  | Object vals => match nth_error vals i with Some None => true | _ => false end
  | Datetime64 vals => match nth_error vals i with Some None => true | _ => false end
  | Boolean _ => false
  end.

(** Row [i] has no missing cell. *)
Definition row_complete (df : DataFrame) (i : nat) : bool :=
  forallb (fun c => negb (cell_isnull (snd c) i)) df.

(** Boolean-mask selection of the cells of a column. *)
Fixpoint keep {A : Type} (mask : list bool) (l : list A) : list A :=
  match mask, l with
  | b :: mask', x :: l' => if b then x :: keep mask' l' else keep mask' l'
  | _, _ => []
  end.

Definition keep_rows (mask : list bool) (s : Series) : Series :=
  match s with
  | Float64 vals => Float64 (keep mask vals)
  | Object vals => Object (keep mask vals)
  | Datetime64 vals => Datetime64 (keep mask vals)
  | Boolean vals => Boolean (keep mask vals)
  end.

(** [df.dropna()] with the defaults (line 32): the rows with any missing
    cell are removed from every column. *)
Definition dropna_frame (df : DataFrame) : DataFrame :=
  let mask := map (row_complete df) (seq 0 (nrows df)) in
  map (fun c => (fst c, keep_rows mask (snd c))) df.

(** Lines 27-35: the table the rest of the script works on.  [drop_na] is
    the state of the checkbox, which is only shown when a cell is missing. *)
Definition cleaning (drop_na : bool) (df : DataFrame) : DataFrame :=
  if isnull_any df then
    if drop_na then dropna_frame df else df
  else df.

(** Lines 27-114 without the charts: cleaning, then the insights. *)
Definition dashboard
    (sort_values :
       list ((string * string) * option Q) -> list ((string * string) * option Q))
    (pearson : list (option Q) -> list (option Q) -> option Q)
    (parse_datetime : string -> option Z)
    (drop_na : bool) (df : DataFrame) : result InsightReport * DataFrame :=
  key_insights sort_values pearson parse_datetime (cleaning drop_na df).

(** ** Vocabulary of the statements *)

(** Two floats denote the same value (NaN only matches NaN). *)
Definition eq_nan (a b : option Q) : Prop :=
  match a, b with
  | Some x, Some y => (x == y)%Q
  | None, None => True
  | _, _ => False
  end.

(** Ascending order on floats: the second is not below the first. *)
Definition float_le (a b : float) : Prop := (b <? a)%float = false.

(** In the spec's words: the percentile at the fraction [q] by linear
    interpolation on the sorted values [xs], read at position
    [h = q (n - 1)] between the value at [floor h] and the next one. *)
Definition percentile (xs : list float) (q : Q) : float :=
  let h := (q * inject_Z (Z.of_nat (List.length xs - 1)))%Q in
  let lo := Z.to_nat (Qfloor h) in
  lerp (nth lo xs nan) (nth (Nat.min (lo + 1) (List.length xs - 1)) xs nan)
       (float64 (h - inject_Z (Z.of_nat lo))).

(** The IQR rule in the spec's words: a value is an outlier iff it is
    below Q1 - 1.5 IQR or above Q3 + 1.5 IQR, with IQR = Q3 - Q1; the
    bounds are computed, and the value compared with them, in binary64. *)
Definition is_outlier (q1 q3 v : float) : Prop :=
  (v <? q1 - 1.5 * (q3 - q1))%float = true
  \/ (q3 + 1.5 * (q3 - q1) <? v)%float = true.

(** The same rule as a test. *)
Definition is_outlierb (q1 q3 v : float) : bool :=
  (v <? q1 - 1.5 * (q3 - q1))%float || (q3 + 1.5 * (q3 - q1) <? v)%float.

(** The non-missing values of a numeric column, as floats. *)
Definition present_values (vals : list (option Q)) : list float :=
  map float64 (dropna vals).

(** A float that is a zero or NaN. *)
Definition SFzero_or_nan (x : spec_float) : Prop :=
  match x with
  | S754_zero _ | S754_nan => True
  | _ => False
  end.

(** [x] is NaN or has the value of [f]. *)
Definition SFnear (f x : spec_float) : Prop :=
  match x with
  | S754_nan => True
  | S754_zero _ => match f with S754_zero _ => True | _ => False end
  | _ => x = f
  end.

Definition near (f x : float) : Prop := SFnear (Prim2SF f) (Prim2SF x).

(** In the spec's words: the column has a missing value. *)
Definition has_missing (s : Series) : Prop :=
  match s with
  | Float64 vals => In None vals
  | Object vals => In None vals
  | Datetime64 vals => In None vals
  | Boolean _ => False
  end.

(** The number of cells of a column that hold a value. *)
Definition count_present (s : Series) : nat :=
  match s with
  | Float64 vals => List.length (dropna vals)
  | Object vals => List.length (dropna vals)
  | Datetime64 vals => List.length (dropna vals)
  | Boolean vals => List.length vals
  end.

(** In the spec's words: the per-column missing count, the cells of the
    column that hold no value. *)
Definition missing_count (s : Series) : nat := series_length s - count_present s.



(** The numeric columns of a table, with their cells. *)
Definition numeric_entries (df : DataFrame) : list (string * Series) :=
  filter (fun c => is_number (snd c)) df.

(** The text columns of a table, with their cells. *)
Definition categorical_entries (df : DataFrame) : list (string * Series) :=
  filter (fun c => is_object (snd c)) df.

(** In the spec's words: [f] is the relative frequency, among the
    non-missing entries of the column, of a most frequent value. *)
Definition is_top_frequency (vals : list (option string)) (f : Q) : Prop :=
  exists v,
    In (Some v) vals
    /\ (forall w, count_eqb String.eqb w (dropna vals)
                   <= count_eqb String.eqb v (dropna vals))
    /\ (f == ratio (count_eqb String.eqb v (dropna vals)) (List.length (dropna vals)))%Q.

(** The top frequency of the columns before and after the reported one:
    strictly smaller before, not larger after. *)
Definition dominated (strictly : bool) (f : Q) (x : string * Series) : Prop :=
  exists g, top_frequency (snd x) = Some g
            /\ if strictly then (g < f)%Q else (g <= f)%Q.

(** The outlier count of a numeric column (0 stands for the other dtypes,
    which the loop never visits). *)
Definition series_outliers (s : Series) : nat :=
  match s with
  | Float64 vals => count_outliers vals
  | _ => 0
  end.

(** The column of the worked example of the outlier rule. *)
Definition example_column : list (option Q) :=
  map (fun z => Some (inject_Z z)) [1; 2; 3; 4; 5; 6; 7; 8; 9; 100]%Z.

(** A table whose only column is that one. *)
Definition table_outlier : DataFrame := [("x"%string, Float64 example_column)].

(** The same values in another order, with two missing cells. *)
Definition shuffled_column : list (option Q) :=
  [Some 100%Q; Some 9%Q; None; Some 3%Q; Some 4%Q; Some 1%Q; Some 6%Q;
   Some 7%Q; None; Some 8%Q; Some 2%Q; Some 5%Q].


(** A column on which the rounding of the bounds decides: 0, 0.1, 0.1,
    1.3, 3.1. *)
Definition rounding_column : list (option Q) :=
  [Some 0%Q; Some (1 # 10); Some (1 # 10); Some (13 # 10); Some (31 # 10)].

(** Two outcomes of a run that agree in everything but the choice among
    tied pairs: the same exception, or reports with the same insights 2 to
    5 and the same correlation value for insight 1. *)
Definition same_up_to_ties (r1 r2 : result InsightReport) : Prop :=
  match r1, r2 with
  | Ok a, Ok b =>
      missing a = missing b /\ imbalance a = imbalance b
      /\ outliers a = outliers b /\ trend a = trend b
      /\ match correlated a, correlated b with
         | Some (_, _, v1), Some (_, _, v2) => eq_nan v1 v2
         | None, None => True
         | _, _ => False
         end
  | Raise e1, Raise e2 => e1 = e2
  | _, _ => False
  end.

(** ** Tables of the worked examples *)

Definition cells (l : list Z) : list (option Q) :=
  map (fun z => Some (inject_Z z)) l.

(** Two text columns, one with a missing cell, and no numeric column. *)
Definition table_no_numeric : DataFrame :=
  [("city"%string, Object [Some "Oslo"%string; None; Some "Oslo"%string]);
   ("country"%string, Object [Some "NO"%string; Some "NO"%string; Some "NO"%string])].

(** A text column without any value, followed by one with a value. *)
Definition table_blank_category : DataFrame :=
  [("c"%string, Object [None]); ("d"%string, Object [Some "x"%string])].

(** A text column where one value fills four of the five present cells. *)
Definition table_dominant : DataFrame :=
  [("kind"%string,
    Object [Some "x"%string; Some "x"%string; None; Some "y"%string;
            Some "x"%string; Some "x"%string])].

(** Two perfectly correlated numeric columns. *)
Definition table_collinear : DataFrame :=
  [("a"%string, Float64 (cells [1; 2; 3]%Z)); ("b"%string, Float64 (cells [2; 4; 6]%Z))].

(** The same two columns and a third one, r = 1/2 with either. *)
Definition table_collinear3 : DataFrame :=
  [("a"%string, Float64 (cells [1; 2; 3]%Z));
   ("b"%string, Float64 (cells [2; 4; 6]%Z));
   ("c"%string, Float64 (cells [1; 3; 2]%Z))].

(** Two numeric columns with r = 1/2, a column of dates kept as text and a
    text column with a missing cell. *)
Definition table_mixed : DataFrame :=
  [("a"%string, Float64 (cells [1; 2; 3]%Z));
   ("b"%string, Float64 (cells [1; 3; 2]%Z));
   ("day"%string,
    Object [Some "2020-01-01"%string; Some "2020-01-01"%string; Some "2020-01-02"%string]);
   ("city"%string, Object [Some "Oslo"%string; None; Some "Oslo"%string])].

(** The worked example of the time trend. *)
Definition table_trend : DataFrame :=
  [("note"%string, Object [Some "n/a"%string; Some "2020-01-01"%string; None]);
   ("day"%string,
    Object [Some "2020-01-01"%string; Some "2020-01-01"%string; Some "2020-01-02"%string]);
   ("value"%string, Float64 (cells [10; 20; 30]%Z))].

(** A table whose only missing cell is a NaN in a numeric column. *)
Definition table_numeric_gap : DataFrame :=
  [("city"%string, Object [Some "Oslo"%string; Some "Rome"%string; Some "Oslo"%string]);
   ("a"%string, Float64 [Some 1%Q; None; Some 3%Q]);
   ("ok"%string, Boolean [true; false; true])].

(** The columns of a table share one length. *)
Definition rectangular (df : DataFrame) : Prop :=
  forall c, In c df -> series_length (snd c) = nrows df.

Definition same_dtype (s t : Series) : bool :=
  match s, t with
  | Float64 _, Float64 _ | Object _, Object _
  | Datetime64 _, Datetime64 _ | Boolean _, Boolean _ => true
  | _, _ => false
  end.

(** Two tables with the same column names and dtypes, in the same order. *)
Definition same_schema (df df' : DataFrame) : Prop :=
  Forall2 (fun c c' => fst c = fst c' /\ same_dtype (snd c) (snd c') = true) df df'.

(** A table with a missing cell in its first and in its last row. *)
Definition table_gaps : DataFrame :=
  [("a"%string, Float64 [None; Some 2%Q; Some 3%Q; Some 4%Q]);
   ("city"%string,
    Object [Some "Oslo"%string; Some "Rome"%string; Some "Oslo"%string; None]);
   ("ok"%string, Boolean [true; false; true; true])].

(** What the name [corr] holds when line 68 reads it: the frame of line 48
    when there is a numeric column, nothing otherwise. *)
Definition bound_corr (pearson : list (option Q) -> list (option Q) -> option Q)
    (df : DataFrame) : option CorrFrame :=
  match select_dtypes is_number df with
  | [] => None
  | _ :: _ => Some (DataFrame_corr pearson (numeric_frame df))
  end.

(** Two numeric columns with r = 1/2, a column of dates kept as text that
    holds one date throughout, and a text column with two values. *)
Definition table_dated : DataFrame :=
  [("a"%string, Float64 (cells [1; 2; 3]%Z));
   ("b"%string, Float64 (cells [1; 3; 2]%Z));
   ("day"%string,
    Object [Some "2020-01-01"%string; Some "2020-01-01"%string; Some "2020-01-01"%string]);
   ("city"%string, Object [Some "Oslo"%string; Some "Rome"%string; Some "Oslo"%string])].

(** A table with one numeric column. *)
Definition table_one_numeric : DataFrame :=
  [("a"%string, Float64 [Some 1%Q; Some 2%Q; Some 3%Q]);
   ("city"%string, Object [Some "Oslo"%string; Some "Rome"%string; Some "Oslo"%string])].

(** Distinct column names of a literal table. *)
Ltac distinct_names :=
  unfold columns; simpl;
  repeat (constructor; [simpl; intuition discriminate |]); constructor.

(** * Facts *)

(** ** The first maximal entry *)

Section FirstMax.

Context {A K : Type}.
Variable gt : K -> K -> bool.

(** The keys on which [gt] behaves as a strict weak order (NaN is not one
    of them). *)
Variable good : K -> Prop.

Hypothesis gt_trans : forall a b c, good a -> good b -> good c ->
  gt a b = true -> gt b c = true -> gt a c = true.

Hypothesis gt_negtrans : forall a b c, good a -> good b -> good c ->
  gt a b = false -> gt b c = false -> gt a c = false.

Let goods (l : list (A * K)) : Prop := Forall (fun x => good (snd x)) l.

Lemma argmax_from_scan (l pre mid : list (A * K)) (best : A * K) :
  goods pre -> good (snd best) -> goods mid -> goods l ->
  Forall (fun x => gt (snd best) (snd x) = true) pre ->
  Forall (fun x => gt (snd x) (snd best) = false) mid ->
  exists pre' post',
    pre ++ best :: mid ++ l = pre' ++ argmax_from gt best l :: post'
    /\ Forall (fun x => gt (snd (argmax_from gt best l)) (snd x) = true) pre'
    /\ Forall (fun x => gt (snd x) (snd (argmax_from gt best l)) = false) post'.
Proof.
  unfold goods. revert pre mid best.
  induction l as [|x l IH]; intros pre mid best Gpre Gbest Gmid Gl Hpre Hmid.
  - exists pre, mid. rewrite app_nil_r. simpl. auto.
  - inversion Gl as [|? ? Gx Gl']; subst. simpl.
    rewrite Forall_forall in Hpre, Hmid, Gpre, Gmid.
    destruct (gt (snd x) (snd best)) eqn:Hx.
    + assert (G1 : Forall (fun y => good (snd y)) (pre ++ best :: mid)).
      { apply Forall_forall. intros y Hy. apply in_app_iff in Hy.
        destruct Hy as [Hy | [<- | Hy]]; auto. }
      assert (H1 : Forall (fun y => gt (snd x) (snd y) = true) (pre ++ best :: mid)).
      { apply Forall_forall. intros y Hy. apply in_app_iff in Hy.
        destruct Hy as [Hy | [<- | Hy]].
        - apply gt_trans with (b := snd best); auto.
        - assumption.
        - destruct (gt (snd x) (snd y)) eqn:Hxy; [reflexivity |].
          rewrite (gt_negtrans (snd x) (snd y) (snd best)) in Hx; auto. }
      destruct (IH (pre ++ best :: mid) [] x G1 Gx (Forall_nil _) Gl' H1 (Forall_nil _))
        as (pre' & post' & E & H2 & H3).
      exists pre', post'. split; [| auto].
      rewrite <- E. simpl. rewrite <- app_assoc. reflexivity.
    + assert (G1 : Forall (fun y => good (snd y)) (mid ++ [x])).
      { apply Forall_forall. intros y Hy. apply in_app_iff in Hy.
        destruct Hy as [Hy | [<- | []]]; auto. }
      assert (H1 : Forall (fun y => gt (snd y) (snd best) = false) (mid ++ [x])).
      { apply Forall_forall. intros y Hy. apply in_app_iff in Hy.
        destruct Hy as [Hy | [<- | []]]; auto. }
      assert (G0 : Forall (fun y => good (snd y)) pre) by (apply Forall_forall; auto).
      assert (H0 : Forall (fun y => gt (snd best) (snd y) = true) pre)
        by (apply Forall_forall; auto).
      destruct (IH pre (mid ++ [x]) best G0 Gbest G1 Gl' H0 H1)
        as (pre' & post' & E & H2 & H3).
      exists pre', post'. split; [| auto].
      rewrite <- E. rewrite <- app_assoc. reflexivity.
Qed.

(** [first_max] returns an entry of the list that no entry exceeds and that
    strictly exceeds every entry before it. *)
Lemma first_max_split (l : list (A * K)) (r : A * K) :
  goods l -> first_max gt l = Some r ->
  exists pre post,
    l = pre ++ r :: post
    /\ Forall (fun x => gt (snd r) (snd x) = true) pre
    /\ Forall (fun x => gt (snd x) (snd r) = false) post.
Proof.
  unfold goods. intros G H. destruct l as [|x l]; [discriminate |].
  simpl in H. injection H as <-.
  inversion G as [|? ? Gx Gl]; subst.
  destruct (argmax_from_scan l [] [] x (Forall_nil _) Gx (Forall_nil _) Gl
              (Forall_nil _) (Forall_nil _)) as (pre & post & E & P1 & P2).
  exists pre, post. auto.
Qed.

Lemma first_max_some (l : list (A * K)) :
  l <> [] -> exists r, first_max gt l = Some r.
Proof.
  destruct l; [congruence | intros _; simpl; eauto].
Qed.

End FirstMax.

Lemma gt_nat_true (a b : nat) : gt_nat a b = true <-> b < a.
Proof. unfold gt_nat. apply Nat.ltb_lt. Qed.

Lemma gt_nat_false (a b : nat) : gt_nat a b = false <-> a <= b.
Proof. unfold gt_nat. rewrite Nat.ltb_ge. reflexivity. Qed.

(** [first_max] on counts. *)
Lemma first_max_nat_split {A : Type} (l : list (A * nat)) (r : A * nat) :
  first_max gt_nat l = Some r ->
  exists pre post,
    l = pre ++ r :: post
    /\ Forall (fun x => snd x < snd r) pre
    /\ Forall (fun x => snd x <= snd r) post.
Proof.
  intros H.
  destruct (first_max_split gt_nat (fun _ => True) (A := A)) with (l := l) (r := r)
    as (pre & post & E & H1 & H2); auto.
  - intros a b c _ _ _. rewrite !gt_nat_true. lia.
  - intros a b c _ _ _. rewrite !gt_nat_false. lia.
  - apply Forall_forall; auto.
  - exists pre, post. split; [assumption |]. split.
    + eapply Forall_impl; [| exact H1]. intros x. simpl. apply gt_nat_true.
    + eapply Forall_impl; [| exact H2]. intros x. simpl. apply gt_nat_false.
Qed.

(** ** Association lists *)

Lemma assoc_get_found {V : Type} (pre post : list (string * V)) (k : string) (v : V) :
  ~ In k (map fst pre) -> assoc_get (pre ++ (k, v) :: post) k = Ok v.
Proof.
  induction pre as [|[k' v'] pre IH]; simpl; intros H.
  - rewrite String.eqb_refl. reflexivity.
  - destruct (String.eqb k' k) eqn:E.
    + apply String.eqb_eq in E. tauto.
    + apply IH. tauto.
Qed.

Lemma nodup_keys_split {V : Type} (pre post : list (string * V)) (k : string) (v : V) :
  NoDup (map fst (pre ++ (k, v) :: post)) ->
  ~ In k (map fst pre) /\ ~ In k (map fst post).
Proof.
  rewrite map_app. simpl. intros H.
  apply NoDup_remove_2 in H. rewrite in_app_iff in H. tauto.
Qed.

Lemma map_split_inv {X Y : Type} (f : X -> Y) (l : list X) (pre post : list Y) (y : Y) :
  map f l = pre ++ y :: post ->
  exists lpre x lpost,
    l = lpre ++ x :: lpost /\ map f lpre = pre /\ f x = y /\ map f lpost = post.
Proof.
  intros H. apply map_eq_app in H. destruct H as (l1 & l2 & -> & H1 & H2).
  apply map_eq_cons in H2. destruct H2 as (x & l3 & -> & Hx & H3).
  exists l1, x, l3. auto.
Qed.

(** ** Insight 2 *)

(** What lines 74-77 compute, in one case analysis: the entry picked by
    [idxmax] is the first column holding the largest count, and the count
    shown next to it is that column's own. *)
Lemma insight_missing_cases (df : DataFrame) :
  NoDup (columns df) ->
  (df = [] /\ insight_missing df = Ok None)
  \/ exists pre c s post,
       df = pre ++ (c, s) :: post
       /\ Forall (fun x => isnull_sum (snd x) < isnull_sum s) pre
       /\ Forall (fun x => isnull_sum (snd x) <= isnull_sum s) post
       /\ insight_missing df =
            if 0 <? isnull_sum s then Ok (Some (c, isnull_sum s)) else Ok None.
Proof.
  intros Hnd. destruct df as [|x0 df0]; [left; auto | right].
  remember (x0 :: df0) as df eqn:Edf.
  destruct (first_max_some gt_nat (isnull_sums df)) as [[c m] Hr].
  { subst df. discriminate. }
  destruct (first_max_nat_split _ _ Hr) as (pre' & post' & E & H1 & H2).
  unfold isnull_sums in E.
  destruct (map_split_inv _ _ _ _ _ E) as (pre & [c' s] & post & Ed & Epre & Ex & Epost).
  simpl in Ex. injection Ex as -> <-.
  exists pre, c, s, post. split; [assumption |].
  subst pre' post'. rewrite Forall_map in H1, H2. simpl in H1, H2.
  split; [assumption |]. split; [assumption |].
  unfold insight_missing, series_max, idxmax. rewrite Hr. simpl.
  destruct (0 <? isnull_sum s); [| reflexivity].
  unfold getitem. rewrite Ed. rewrite assoc_get_found; [reflexivity |].
  unfold columns in Hnd. rewrite Ed in Hnd.
  apply nodup_keys_split in Hnd. tauto.
Qed.

Lemma count_none_present {A : Type} (l : list (option A)) :
  count_none l + List.length (dropna l) = List.length l.
Proof.
  unfold count_none. induction l as [|[x|] l IH]; simpl; lia.
Qed.

(** The count of [isnull().sum()] is the number of cells of the column
    that hold no value, whatever its dtype. *)
Lemma isnull_sum_missing_count (s : Series) : isnull_sum s = missing_count s.
Proof.
  unfold missing_count.
  destruct s as [vals|vals|vals|vals]; simpl;
    try (pose proof (count_none_present vals); lia).
  lia.
Qed.

Lemma count_none_in {A : Type} (l : list (option A)) : 0 < count_none l <-> In None l.
Proof.
  unfold count_none. induction l as [|[x|] l IH]; simpl.
  - split; [lia | tauto].
  - rewrite IH. split; [auto | intros [H | H]; [discriminate | assumption]].
  - split; [auto | lia].
Qed.

Lemma has_missing_count (s : Series) : has_missing s <-> 0 < missing_count s.
Proof.
  rewrite <- isnull_sum_missing_count.
  destruct s as [vals|vals|vals|vals]; simpl; try (symmetry; apply count_none_in).
  split; [tauto | lia].
Qed.

(** C5.  The missing-data insight never raises; it is populated exactly when
    some column holds a missing cell, of whatever dtype; when populated it
    names the first column (in declaration order) holding the largest
    number of missing cells, with that number; and on a table where one
    column has exactly one missing cell and no other column has any, it
    names that column with count 1. *)
Theorem missing_insight_first_max (df : DataFrame) (Hnames : NoDup (columns df)) :
  ((exists c n, insight_missing df = Ok (Some (c, n)))
     <-> exists c s, In (c, s) df /\ has_missing s)
  /\ (insight_missing df = Ok None
        <-> forall c s, In (c, s) df -> ~ has_missing s)
  /\ (forall c n, insight_missing df = Ok (Some (c, n)) ->
        0 < n
        /\ exists pre s post,
             df = pre ++ (c, s) :: post
             /\ missing_count s = n
             /\ Forall (fun x => missing_count (snd x) < n) pre
             /\ Forall (fun x => missing_count (snd x) <= n) post)
  /\ (forall pre c s post,
        df = pre ++ (c, s) :: post ->
        missing_count s = 1 ->
        Forall (fun x => ~ has_missing (snd x)) (pre ++ post) ->
        insight_missing df = Ok (Some (c, 1))).
Proof.
  destruct (insight_missing_cases df Hnames)
    as [[-> E] | (pre & c & s & post & Ed & Hpre & Hpost & E)].
  - rewrite E. repeat split.
    + intros (c & n & H). discriminate.
    + intros (c & s & [] & _).
    + intros _ c s [].
    + discriminate.
    + discriminate.
    + intros pre c s post H. destruct pre; discriminate.
  - assert (Hpre' : Forall (fun x => missing_count (snd x) < missing_count s) pre).
    { eapply Forall_impl; [| exact Hpre]. intros x Hx.
      rewrite <- !isnull_sum_missing_count. exact Hx. }
    assert (Hpost' : Forall (fun x => missing_count (snd x) <= missing_count s) post).
    { eapply Forall_impl; [| exact Hpost]. intros x Hx.
      rewrite <- !isnull_sum_missing_count. exact Hx. }
    rewrite isnull_sum_missing_count in E. clear Hpre Hpost.
    assert (Hall : forall c' s', In (c', s') df -> missing_count s' <= missing_count s).
    { intros c' s' Hin. rewrite Ed in Hin. apply in_app_iff in Hin.
      rewrite Forall_forall in Hpre', Hpost'.
      destruct Hin as [Hin | [Heq | Hin]].
      - specialize (Hpre' _ Hin). simpl in Hpre'. lia.
      - injection Heq as _ <-. lia.
      - specialize (Hpost' _ Hin). simpl in Hpost'. lia. }
    assert (Hin : In (c, s) df) by (rewrite Ed; apply in_elt).
    rewrite E. destruct (0 <? missing_count s) eqn:Hpos.
    + apply Nat.ltb_lt in Hpos. repeat split.
      * intros _. exists c, s. split; [assumption |]. apply has_missing_count. assumption.
      * intros _. eauto.
      * intros H. discriminate.
      * intros H. exfalso. apply (H c s Hin). apply has_missing_count. assumption.
      * injection H as <- <-. assumption.
      * injection H as <- <-. exists pre, s, post. auto.
      * intros pre1 c1 s1 post1 Ed1 Hone Hzero.
        assert (Hin1 : In (c1, s1) df) by (rewrite Ed1; apply in_elt).
        rewrite Ed1 in Hin. apply in_elt_inv in Hin.
        destruct Hin as [Heq | Hin].
        -- injection Heq as -> ->. rewrite Hone. reflexivity.
        -- rewrite Forall_forall in Hzero. specialize (Hzero _ Hin).
           simpl in Hzero. exfalso. apply Hzero. apply has_missing_count. assumption.
    + apply Nat.ltb_ge in Hpos. repeat split.
      * intros (c' & n & H). discriminate.
      * intros (c' & s' & Hin' & Hm). apply has_missing_count in Hm.
        specialize (Hall _ _ Hin'). lia.
      * intros _ c' s' Hin' Hm. apply has_missing_count in Hm.
        specialize (Hall _ _ Hin'). lia.
      * discriminate.
      * discriminate.
      * intros pre1 c1 s1 post1 Ed1 Hone Hzero.
        assert (Hin1 : In (c1, s1) df) by (rewrite Ed1; apply in_elt).
        specialize (Hall _ _ Hin1). lia.
Qed.

(** ** Tables and the dicts filled from them *)

Lemma assoc_set_fresh {V : Type} (d : list (string * V)) (k : string) (v : V) :
  ~ In k (map fst d) -> assoc_set d k v = d ++ [(k, v)].
Proof.
  induction d as [|[k' v'] d IH]; simpl; intros H; [reflexivity |].
  destruct (String.eqb k' k) eqn:E.
  - apply String.eqb_eq in E. tauto.
  - rewrite IH by tauto. reflexivity.
Qed.

Lemma getitem_in (df : DataFrame) (c : string) (s : Series) :
  NoDup (columns df) -> In (c, s) df -> getitem df c = Ok s.
Proof.
  intros Hnd Hin. apply in_split in Hin. destruct Hin as (pre & post & ->).
  unfold getitem. apply assoc_get_found.
  apply nodup_keys_split in Hnd. tauto.
Qed.

Lemma nodup_filter_keys {V : Type} (p : string * V -> bool) (l : list (string * V)) :
  NoDup (map fst l) -> NoDup (map fst (filter p l)).
Proof.
  induction l as [|x l IH]; simpl; intros H; [constructor |].
  inversion H as [|? ? Hx Hl]; subst.
  destruct (p x); simpl; auto.
  constructor; auto.
  intros Hin. apply Hx. apply in_map_iff in Hin. destruct Hin as (y & <- & Hy).
  apply filter_In in Hy. apply in_map. tauto.
Qed.

Lemma fill_dict_fresh {V : Type} (f : Series -> result V) (g : Series -> V)
    (df : DataFrame) (sub : list (string * Series)) (d : list (string * V)) :
  (forall x, In x sub -> getitem df (fst x) = Ok (snd x)) ->
  (forall x, In x sub -> f (snd x) = Ok (g (snd x))) ->
  NoDup (map fst d ++ map fst sub) ->
  fill_dict f df (map fst sub) d = Ok (d ++ map (fun x => (fst x, g (snd x))) sub).
Proof.
  revert d. induction sub as [|x sub IH]; intros d Hget Hf Hnd; simpl.
  - rewrite app_nil_r. reflexivity.
  - rewrite (Hget x) by (left; reflexivity). simpl.
    rewrite (Hf x) by (left; reflexivity). simpl.
    simpl in Hnd.
    assert (Hfresh : ~ In (fst x) (map fst d)).
    { apply NoDup_remove_2 in Hnd. rewrite in_app_iff in Hnd. tauto. }
    rewrite assoc_set_fresh by assumption.
    rewrite IH.
    + rewrite <- app_assoc. reflexivity.
    + intros y Hy. apply Hget. right. assumption.
    + intros y Hy. apply Hf. right. assumption.
    + rewrite map_app. simpl. rewrite <- app_assoc. simpl. assumption.
Qed.

(** A dict filled from the columns selected by dtype holds one entry per
    selected column, in declaration order. *)
Lemma fill_dict_selected {V : Type} (f : Series -> result V) (g : Series -> V)
    (p : Series -> bool) (df : DataFrame) :
  NoDup (columns df) ->
  (forall s, p s = true -> f s = Ok (g s)) ->
  fill_dict f df (select_dtypes p df) [] =
    Ok (map (fun x => (fst x, g (snd x))) (filter (fun c => p (snd c)) df)).
Proof.
  intros Hnd Hf. unfold select_dtypes.
  rewrite (fill_dict_fresh f g); [reflexivity | | |].
  - intros [c s] Hin. apply filter_In in Hin. simpl. apply getitem_in; tauto.
  - intros [c s] Hin. apply filter_In in Hin. simpl. apply Hf. tauto.
  - simpl. apply nodup_filter_keys. assumption.
Qed.

(** The entry [py_max] picks from a dict with distinct keys, looked up
    again, gives the value it was picked for. *)
Lemma assoc_get_picked {V : Type} (pre post : list (string * V)) (k : string) (v : V) :
  NoDup (map fst (pre ++ (k, v) :: post)) ->
  assoc_get (pre ++ (k, v) :: post) k = Ok v.
Proof.
  intros H. apply assoc_get_found. apply nodup_keys_split in H. tauto.
Qed.

(** ** Comparisons with NaN *)

Lemma Qltb_lt (x y : Q) : Qltb x y = true <-> (x < y)%Q.
Proof.
  unfold Qltb. rewrite negb_true_iff. split.
  - intros H. apply Qnot_le_lt. intros Hle.
    apply Qle_bool_iff in Hle. congruence.
  - intros H. destruct (Qle_bool y x) eqn:E; [| reflexivity].
    apply Qle_bool_iff in E. apply Qlt_not_le in H. tauto.
Qed.

Lemma Qltb_ge (x y : Q) : Qltb x y = false <-> (y <= x)%Q.
Proof.
  unfold Qltb. rewrite negb_false_iff. apply Qle_bool_iff.
Qed.

Lemma lt_nan_missing_l (b : option Q) : lt_nan None b = false.
Proof. reflexivity. Qed.

Lemma lt_nan_missing_r (a : option Q) : lt_nan a None = false.
Proof. destruct a; reflexivity. Qed.

(** ** Binary64: zeros, NaN and comparisons *)

Lemma SFnear_refl (f : spec_float) : SFnear f f.
Proof. destruct f; simpl; auto. Qed.

(** The difference of two floats of the same value is a zero, or NaN when
    they are the same infinity. *)
Lemma SFsub_near (f x y : spec_float) :
  SFnear f x -> SFnear f y -> SFzero_or_nan (SFsub prec emax x y).
Proof.
  intros Hx Hy.
  destruct x as [sx|sx| |sx mx ex]; simpl in Hx.
  - destruct f; try contradiction.
    destruct y as [sy|sy| |sy my ey]; simpl in Hy; try discriminate Hy; simpl; auto.
    destruct sx, sy; simpl; auto.
  - subst f. destruct y as [sy|sy| |sy my ey]; simpl in Hy; try contradiction; simpl; auto.
    + injection Hy as ->. destruct sx; simpl; auto.
    + discriminate Hy.
  - destruct y; simpl; auto.
  - subst f. destruct y as [sy|sy| |sy my ey]; simpl in Hy; try contradiction; simpl; auto.
    + discriminate Hy.
    + injection Hy as -> -> ->. rewrite Z.sub_diag. simpl. auto.
Qed.

Lemma SFmul_zero_l (z t : spec_float) :
  SFzero_or_nan z -> SFzero_or_nan (SFmul prec emax z t).
Proof. destruct z, t; simpl; tauto. Qed.

Lemma SFmul_zero_r (z t : spec_float) :
  SFzero_or_nan z -> SFzero_or_nan (SFmul prec emax t z).
Proof. destruct z, t; simpl; tauto. Qed.

Lemma SFadd_near (f x z : spec_float) :
  SFnear f x -> SFzero_or_nan z -> SFnear f (SFadd prec emax x z).
Proof.
  destruct x as [sx|sx| |sx mx ex], z as [sz|sz| |sz mz ez]; simpl; try tauto.
  destruct sx, sz; simpl; auto.
Qed.

Lemma SFsub_near_zero (f x z : spec_float) :
  SFnear f x -> SFzero_or_nan z -> SFnear f (SFsub prec emax x z).
Proof.
  destruct x as [sx|sx| |sx mx ex], z as [sz|sz| |sz mz ez]; simpl; try tauto.
  destruct sx, sz; simpl; auto.
Qed.

Lemma SFcompare_refl (x : spec_float) :
  SFcompare x x = None \/ SFcompare x x = Some Eq.
Proof.
  destruct x as [s|s| |s m e]; simpl; auto.
  - destruct s; auto.
  - right. rewrite Z.compare_refl, Pos.compare_cont_refl. destruct s; reflexivity.
Qed.

(** A float is neither below nor above a float of the same value, nor
    NaN. *)
Lemma SFltb_near (f x : spec_float) :
  SFnear f x -> SFltb f x = false /\ SFltb x f = false.
Proof.
  intros H. unfold SFltb.
  assert (E : (SFcompare f x = None \/ SFcompare f x = Some Eq)
              /\ (SFcompare x f = None \/ SFcompare x f = Some Eq)).
  { destruct x as [sx|sx| |sx mx ex]; simpl in H.
    - destruct f; try contradiction. simpl. auto.
    - subst f. split; apply SFcompare_refl.
    - destruct f; simpl; auto.
    - subst f. split; apply SFcompare_refl. }
  destruct E as [[-> | ->] [-> | ->]]; auto.
Qed.

Lemma SFcompare_antisym (x y : spec_float) :
  SFcompare y x = option_map CompOpp (SFcompare x y).
Proof.
  destruct x as [sx|sx| |sx mx ex], y as [sy|sy| |sy my ey]; simpl;
    try reflexivity; try (destruct sx; reflexivity); try (destruct sy; reflexivity);
    try (destruct sx, sy; reflexivity).
  rewrite (Z.compare_antisym ex ey).
  change (Pos.compare_cont Eq my mx) with (Pos.compare_cont (CompOpp Eq) my mx).
  rewrite <- (Pos.compare_cont_antisym mx my Eq).
  destruct sx, sy; try reflexivity;
    destruct (ex ?= ey)%Z; simpl; try reflexivity;
    rewrite ?CompOpp_involutive; reflexivity.
Qed.

(** NaN fails every strict comparison. *)
Lemma ltb_nan_l (x : float) : (nan <? x)%float = false.
Proof. rewrite ltb_spec. reflexivity. Qed.

Lemma ltb_nan_r (x : float) : (x <? nan)%float = false.
Proof.
  rewrite ltb_spec. change (Prim2SF nan) with S754_nan.
  destruct (Prim2SF x); reflexivity.
Qed.

Lemma leb_false_ltb (x y : float) : (x <=? y)%float = false -> (x <? y)%float = false.
Proof.
  rewrite leb_spec, ltb_spec. unfold SFleb, SFltb.
  destruct (SFcompare (Prim2SF x) (Prim2SF y)) as [[| |]|]; congruence.
Qed.

Lemma leb_true_le (x y : float) : (x <=? y)%float = true -> float_le x y.
Proof.
  unfold float_le. rewrite leb_spec, ltb_spec. unfold SFleb, SFltb.
  rewrite (SFcompare_antisym (Prim2SF x) (Prim2SF y)).
  destruct (SFcompare (Prim2SF x) (Prim2SF y)) as [[| |]|]; simpl; congruence.
Qed.

Lemma nan_near (f : float) : near f nan.
Proof. exact I. Qed.

(** Interpolating between two equal values gives that value (or NaN, when
    it is infinite), whatever the weight. *)
Lemma lerp_constant (f t : float) : near f (lerp f f t).
Proof.
  unfold near, lerp. cbv zeta.
  assert (Z : SFzero_or_nan (Prim2SF (f - f)%float)).
  { rewrite sub_spec. apply (SFsub_near (Prim2SF f)); apply SFnear_refl. }
  destruct (0.5 <=? t)%float.
  - rewrite sub_spec. apply SFsub_near_zero; [apply SFnear_refl |].
    rewrite mul_spec. apply SFmul_zero_l. assumption.
  - rewrite add_spec. apply SFadd_near; [apply SFnear_refl |].
    rewrite mul_spec. apply SFmul_zero_l. assumption.
Qed.

(** The conversion at work: exact on the values binary64 holds, to the
    nearest float otherwise (0.1 becomes 0x1.999999999999ap-4, the integer
    2^53 + 1 becomes 2^53), infinite beyond the range; and the mean of three
    cells 0.1 is the float above 0.1, as the rounded sum makes it. *)
Lemma float64_rounds :
  float64 (13 # 4) = 3.25%float
  /\ float64 (- (7 # 2)) = (-3.5)%float
  /\ float64 (1 # 10) = 0x1.999999999999ap-4%float
  /\ float64 (2 ^ 53 + 1) = 0x1p53%float
  /\ float64 (10 ^ 400) = infinity
  /\ mean (map float64 [1 # 10; 1 # 10; 1 # 10]) = next_up (float64 (1 # 10))
  /\ mean (map float64 [10%Q; 10%Q; 40%Q]) = 20%float.
Proof. vm_compute. repeat split; reflexivity. Qed.

(** The conversion of a cell depends on its value only. *)
Lemma float64_Qeq (v c : Q) : (v == c)%Q -> float64 v = float64 c.
Proof. intros H. unfold float64. rewrite (Qred_complete v c H). reflexivity. Qed.

(** ** Insight 4 *)

Lemma outlier_mask_missing (Q1 Q3 : float) : outlier_mask Q1 Q3 nan = false.
Proof. unfold outlier_mask. rewrite ltb_nan_l, ltb_nan_r. reflexivity. Qed.

Lemma is_outlierb_rule (q1 q3 v : float) :
  is_outlierb q1 q3 v = true <-> is_outlier q1 q3 v.
Proof. unfold is_outlierb, is_outlier. apply orb_true_iff. Qed.

(** With both quartiles at the value of a cell (or NaN), the cell is not
    flagged. *)
Lemma outlier_mask_constant (f Q1 Q3 : float) :
  near f Q1 -> near f Q3 -> outlier_mask Q1 Q3 f = false.
Proof.
  intros H1 H3. unfold outlier_mask. cbv zeta.
  assert (Z : SFzero_or_nan (Prim2SF (1.5 * (Q3 - Q1))%float)).
  { rewrite mul_spec. apply SFmul_zero_r. rewrite sub_spec.
    apply (SFsub_near (Prim2SF f)); assumption. }
  apply orb_false_iff. split.
  - rewrite ltb_spec. apply (SFltb_near (Prim2SF f)). rewrite sub_spec.
    apply SFsub_near_zero; assumption.
  - rewrite ltb_spec. apply (SFltb_near (Prim2SF f)). rewrite add_spec.
    apply SFadd_near; assumption.
Qed.

Lemma filter_skips_missing (f : float -> bool) (l : list (option Q)) :
  f nan = false ->
  List.length (filter f (map cell_float l)) = List.length (filter f (present_values l)).
Proof.
  intros Hf. unfold present_values. induction l as [|[x|] l IH]; simpl.
  - reflexivity.
  - destruct (f (float64 x)); simpl; congruence.
  - rewrite Hf. assumption.
Qed.

Lemma quantile_dropna (q : Q) (vals vals' : list (option Q)) :
  dropna vals' = dropna vals -> quantile q vals' = quantile q vals.
Proof. intros H. unfold quantile. rewrite H. reflexivity. Qed.

Lemma dropna_present {A : Type} (l : list (option A)) : dropna (map Some (dropna l)) = dropna l.
Proof. induction l as [|[x|] l IH]; simpl; congruence. Qed.

Lemma insert_sorted_perm (x : float) (l : list float) :
  Permutation (insert_sorted x l) (x :: l).
Proof.
  induction l as [|y l IH]; simpl; [reflexivity |].
  destruct (x <=? y)%float; [reflexivity |].
  rewrite IH. apply perm_swap.
Qed.

Lemma sort_asc_perm (l : list float) : Permutation (sort_asc l) l.
Proof.
  induction l as [|x l IH]; simpl; [reflexivity |].
  rewrite insert_sorted_perm. constructor. assumption.
Qed.

Lemma insert_sorted_sorted (x : float) (l : list float) :
  Sorted float_le l -> Sorted float_le (insert_sorted x l).
Proof.
  induction 1 as [|y l Hl IH Hy]; simpl.
  - repeat constructor.
  - destruct (x <=? y)%float eqn:E.
    + constructor; [constructor; assumption |]. constructor.
      apply leb_true_le. assumption.
    + constructor; [assumption |].
      destruct l as [|z l]; simpl.
      * constructor. apply leb_false_ltb. assumption.
      * destruct (x <=? z)%float.
        -- constructor. apply leb_false_ltb. assumption.
        -- inversion Hy. constructor. assumption.
Qed.

Lemma sort_asc_sorted (l : list float) : Sorted float_le (sort_asc l).
Proof.
  induction l as [|x l IH]; simpl; [constructor |].
  apply insert_sorted_sorted. assumption.
Qed.

Lemma floor_position_bound (h : Q) (m : nat) :
  (h <= inject_Z (Z.of_nat m))%Q -> Z.to_nat (Qfloor h) <= m.
Proof.
  intros H. apply Qfloor_resp_le in H. rewrite Qfloor_Z in H. lia.
Qed.

Lemma nat_position_nonneg (k : nat) : (0 <= inject_Z (Z.of_nat k))%Q.
Proof. unfold Qle. simpl. lia. Qed.

(** On a column with a value, [quantile] reads the percentile off the
    sorted non-missing values. *)
Lemma quantile_percentile (q : Q) (vals : list (option Q)) :
  (q <= 1)%Q -> dropna vals <> [] ->
  quantile q vals = percentile (sort_asc (present_values vals)) q.
Proof.
  intros Hq Hne. unfold quantile, percentile, present_values. cbv zeta.
  set (xs := sort_asc (map float64 (dropna vals))).
  destruct xs as [|x0 rest] eqn:E.
  - exfalso. apply Hne.
    assert (P : Permutation (map float64 (dropna vals)) []).
    { rewrite <- E. apply Permutation_sym. apply sort_asc_perm. }
    apply Permutation_sym, Permutation_nil in P.
    destruct (dropna vals); [reflexivity | discriminate].
  - set (n := List.length (x0 :: rest)).
    set (h := (q * inject_Z (Z.of_nat (n - 1)))%Q).
    assert (Hlo : Z.to_nat (Qfloor h) <= n - 1).
    { apply floor_position_bound. subst h.
      pose proof (nat_position_nonneg (n - 1)) as HN.
      assert (P : (0 <= (1 - q) * inject_Z (Z.of_nat (n - 1)))%Q)
        by (apply Qmult_le_0_compat; [lra | assumption]).
      lra. }
    assert (Hn : 0 < n) by (subst n; simpl; lia).
    f_equal; apply nth_indep; fold n; lia.
Qed.

(** On a column whose values all convert to [f], a quantile is [f] or
    NaN. *)
Lemma quantile_constant (q : Q) (vals : list (option Q)) (f : float) :
  (forall v, In (Some v) vals -> float64 v = f) -> near f (quantile q vals).
Proof.
  intros Hall. unfold quantile. cbv zeta.
  set (xs := sort_asc (map float64 (dropna vals))).
  assert (Hxs : forall x, In x xs -> x = f).
  { intros x Hx. apply (Permutation_in _ (sort_asc_perm _)) in Hx.
    apply in_map_iff in Hx. destruct Hx as (v & <- & Hv).
    apply Hall. clear - Hv. induction vals as [|[w|] vals IH]; simpl in Hv |- *.
    - destruct Hv.
    - destruct Hv as [-> | Hv]; [left; reflexivity | right; apply IH; assumption].
    - right. apply IH. assumption. }
  destruct xs as [|x0 rest] eqn:E; [apply nan_near |].
  assert (H0 : x0 = f) by (apply Hxs; left; reflexivity).
  assert (Hnth : forall i, nth i (x0 :: rest) x0 = f).
  { intros i. destruct (nth_in_or_default i (x0 :: rest) x0) as [H | H].
    - apply Hxs. assumption.
    - rewrite H. assumption. }
  rewrite !Hnth. apply lerp_constant.
Qed.

(** The dict filled by the loop of lines 90-95 on a table with distinct
    column names. *)
Lemma outlier_counts_selected (df : DataFrame) :
  NoDup (columns df) ->
  outlier_counts_from df (select_dtypes is_number df) =
    Ok (map (fun x => (fst x, series_outliers (snd x))) (numeric_entries df)).
Proof.
  intros Hnd. unfold outlier_counts_from, numeric_entries.
  apply fill_dict_selected; [assumption |].
  intros [vals| | |] H; try discriminate. reflexivity.
Qed.

Lemma insight_outliers_picks (df : DataFrame) :
  NoDup (columns df) -> numeric_entries df <> [] ->
  exists pre c s post,
    numeric_entries df = pre ++ (c, s) :: post
    /\ insight_outliers (select_dtypes is_number df) df = Ok (Some (c, series_outliers s))
    /\ Forall (fun x => series_outliers (snd x) < series_outliers s) pre
    /\ Forall (fun x => series_outliers (snd x) <= series_outliers s) post.
Proof.
  intros Hnd Hne.
  set (d := map (fun x => (fst x, series_outliers (snd x))) (numeric_entries df)).
  assert (Hd : d <> []).
  { subst d. destruct (numeric_entries df); [congruence | discriminate]. }
  destruct (first_max_some gt_nat d Hd) as [[c m] Hr].
  destruct (first_max_nat_split _ _ Hr) as (pre' & post' & E & H1 & H2).
  destruct (map_split_inv _ _ _ _ _ E) as (pre & [c' s] & post & Ed & Epre & Ex & Epost).
  simpl in Ex. injection Ex as -> <-.
  exists pre, c, s, post. split; [assumption |].
  subst pre' post'. rewrite Forall_map in H1, H2. simpl in H1, H2.
  split; [| split; assumption].
  unfold insight_outliers. rewrite outlier_counts_selected by assumption.
  cbn [bind]. fold d. unfold py_max. rewrite Hr. cbn [bind fst].
  rewrite E. rewrite assoc_get_picked; [reflexivity |].
  rewrite <- E. subst d. rewrite map_map. simpl.
  apply nodup_filter_keys. assumption.
Qed.

(** The sibling block for categories is guarded by [if categorical_cols:]
    and reports nothing on an empty selection. *)
Lemma insight_imbalance_guarded (df : DataFrame) :
  insight_imbalance [] df = Ok None.
Proof. reflexivity. Qed.

(** C1.  The outlier block has no such guard: on a table without numeric
    columns the dict [outlier_counts] stays empty and [max] over it raises
    ValueError, instead of the insight being reported as not applicable. *)
Theorem outliers_unguarded_on_empty (df : DataFrame) :
  select_dtypes is_number df = [] ->
  insight_outliers (select_dtypes is_number df) df = Raise ValueError.
Proof.
  intros H. rewrite H. reflexivity.
Qed.

(** On the column 0, 0.1, 0.1, 1.3, 3.1 the rounding of binary64 decides:
    Q3 + 1.5 IQR is the float just below the cell 3.1, which is counted. *)
Lemma rounded_bound_counts :
  (let Q1 := quantile (1 # 4) rounding_column in
   let Q3 := quantile (3 # 4) rounding_column in
   Q1 = float64 (1 # 10) /\ Q3 = float64 (13 # 10)
   /\ (Q3 + 1.5 * (Q3 - Q1))%float = next_down (float64 (31 # 10))
   /\ count_outliers rounding_column = 1)
  /\ count_outliers [Some (2 ^ 53 + 1)%Q; Some (2 ^ 53)%Q; Some (2 ^ 53)%Q;
                     Some (2 ^ 53)%Q; Some (2 ^ 53)%Q] = 0.
Proof. vm_compute. repeat split; reflexivity. Qed.


(** C10.  A missing cell is NaN when the mask of line 94 is computed and
    satisfies neither strict comparison, so the count of a column is the
    number of its non-missing values outside the bounds; the quartiles are
    those of the non-missing values (a column with a value has them, read
    off its sorted values); and two columns with the same non-missing values
    in the same order have the same count, however many missing cells each
    holds.  On 1, ..., 9, 100 with missing cells in between, 100 is still
    the only cell counted. *)
Theorem outliers_never_count_missing (vals : list (option Q)) :
  (forall Q1 Q3, outlier_mask Q1 Q3 (cell_float None) = false)
  /\ count_outliers vals
     = List.length
         (filter (is_outlierb (quantile (1 # 4) vals) (quantile (3 # 4) vals))
                 (present_values vals))
  /\ (forall q1 q3 v, is_outlierb q1 q3 v = true <-> is_outlier q1 q3 v)
  /\ (forall q, quantile q vals = quantile q (map Some (dropna vals)))
  /\ (forall q, (q <= 1)%Q -> dropna vals <> [] ->
        exists xs,
          Permutation xs (present_values vals)
          /\ Sorted float_le xs
          /\ quantile q vals = percentile xs q)
  /\ (dropna vals = [] -> count_outliers vals = 0)
  /\ (forall vals', dropna vals' = dropna vals -> count_outliers vals' = count_outliers vals)
  /\ (quantile (1 # 4) shuffled_column = 3.25%float
      /\ quantile (3 # 4) shuffled_column = 7.75%float
      /\ filter (fun c => outlier_mask 3.25 7.75 (cell_float c)) shuffled_column
         = [Some 100%Q]
      /\ count_outliers shuffled_column = 1).
Proof.
  split; [| split; [| split; [| split; [| split; [| split; [| split]]]]]].
  - intros Q1 Q3. apply outlier_mask_missing.
  - unfold count_outliers. apply filter_skips_missing. apply outlier_mask_missing.
  - apply is_outlierb_rule.
  - intros q. apply quantile_dropna. symmetry. apply dropna_present.
  - intros q Hq Hne. exists (sort_asc (present_values vals)).
    split; [apply sort_asc_perm |]. split; [apply sort_asc_sorted |].
    apply quantile_percentile; assumption.
  - intros H. unfold count_outliers.
    rewrite (filter_skips_missing _ _ (outlier_mask_missing _ _)).
    unfold present_values. rewrite H. reflexivity.
  - intros vals' H. unfold count_outliers.
    rewrite !(filter_skips_missing _ _ (outlier_mask_missing _ _)).
    rewrite (quantile_dropna _ _ _ H), (quantile_dropna _ _ _ H).
    unfold present_values. rewrite H. reflexivity.
  - vm_compute. repeat split; reflexivity.
Qed.

(** ** Insight 3 *)

Lemma dropna_labelled_some {A : Type} (h : A -> Q) (l : list A) :
  dropna_labelled (map (fun v => (v, Some (h v))) l) = map (fun v => (v, h v)) l.
Proof.
  induction l as [|x l IH]; simpl; congruence.
Qed.

Lemma in_dropna {A : Type} (x : A) (l : list (option A)) :
  In x (dropna l) <-> In (Some x) l.
Proof.
  induction l as [|[y|] l IH]; simpl.
  - tauto.
  - rewrite IH. split; intros [H | H]; auto; left; congruence.
  - rewrite IH. split; [auto | intros [H | H]; [discriminate | assumption]].
Qed.

Lemma in_distinct (w : string) (l : list string) :
  In w (distinct String.eqb l) <-> In w l.
Proof.
  induction l as [|x l IH]; simpl; [tauto |].
  rewrite filter_In, IH, negb_true_iff, String.eqb_neq.
  destruct (string_dec x w) as [E | E]; tauto.
Qed.

Lemma count_eqb_pos (w : string) (l : list string) :
  0 < count_eqb String.eqb w l -> In w l.
Proof.
  induction l as [|x l IH]; simpl; [lia |].
  destruct (String.eqb x w) eqn:E.
  - apply String.eqb_eq in E. auto.
  - simpl. auto.
Qed.

Lemma ratio_le (a b n : nat) : (ratio a n <= ratio b n)%Q <-> a <= b.
Proof.
  unfold ratio, Qle. simpl. split; intros H.
  - apply Nat2Z.inj_le. apply Z.mul_le_mono_pos_r in H; [assumption | reflexivity].
  - apply Z.mul_le_mono_nonneg_r; [discriminate | apply Nat2Z.inj_le; assumption].
Qed.

Lemma Qgtb_false (a b : Q) : Qgtb a b = false <-> (a <= b)%Q.
Proof. unfold Qgtb. apply Qltb_ge. Qed.

Lemma Qgtb_true (a b : Q) : Qgtb a b = true <-> (b < a)%Q.
Proof. unfold Qgtb. apply Qltb_lt. Qed.

(** [first_max] on rationals. *)
Lemma first_max_Q_split {A : Type} (l : list (A * Q)) (r : A * Q) :
  first_max Qgtb l = Some r ->
  exists pre post,
    l = pre ++ r :: post
    /\ Forall (fun x => (snd x < snd r)%Q) pre
    /\ Forall (fun x => (snd x <= snd r)%Q) post.
Proof.
  intros H.
  destruct (first_max_split Qgtb (fun _ => True) (A := A)) with (l := l) (r := r)
    as (pre & post & E & H1 & H2); auto.
  - intros a b c _ _ _. rewrite !Qgtb_true. intros; eapply Qlt_trans; eassumption.
  - intros a b c _ _ _. rewrite !Qgtb_false. intros; eapply Qle_trans; eassumption.
  - apply Forall_forall; auto.
  - exists pre, post. split; [assumption |]. split.
    + eapply Forall_impl; [| exact H1]. intros x. simpl. apply Qgtb_true.
    + eapply Forall_impl; [| exact H2]. intros x. simpl. apply Qgtb_false.
Qed.

(** The number stored for a text column with at least one entry is the
    relative frequency of a most frequent value. *)
Lemma top_frequency_object (vals : list (option string)) :
  dropna vals <> [] ->
  exists f, top_frequency (Object vals) = Some f /\ is_top_frequency vals f.
Proof.
  intros Hne. unfold top_frequency, max_float, series_max, value_counts_normalized.
  set (xs := dropna vals) in *. set (n := List.length xs).
  rewrite (dropna_labelled_some (fun v => ratio (count_eqb String.eqb v xs) n)).
  set (l := map (fun v => (v, ratio (count_eqb String.eqb v xs) n)) (distinct String.eqb xs)).
  assert (Hl : l <> []).
  { subst l. destruct xs; [congruence | discriminate]. }
  destruct (first_max_some Qgtb l Hl) as [[v q] Hr]. rewrite Hr. simpl.
  exists q. split; [reflexivity |].
  destruct (first_max_Q_split _ _ Hr) as (pre & post & E & H1 & H2).
  assert (Hall : forall e, In e l -> (snd e <= q)%Q).
  { intros e He. rewrite E in He. apply in_app_iff in He.
    rewrite Forall_forall in H1, H2.
    destruct He as [He | [<- | He]].
    - apply Qlt_le_weak. apply (H1 _ He).
    - apply Qle_refl.
    - apply (H2 _ He). }
  assert (Hv : In (v, q) l) by (rewrite E; apply in_elt).
  subst l. apply in_map_iff in Hv. destruct Hv as (v' & Hv' & Hin).
  injection Hv' as -> <-.
  exists v. fold xs. fold n. split; [| split].
  - apply in_dropna. apply in_distinct. assumption.
  - intros w. destruct (count_eqb String.eqb w xs) eqn:Hw; [lia |].
    rewrite <- Hw.
    assert (Hwin : In w (distinct String.eqb xs)).
    { apply in_distinct. apply count_eqb_pos. lia. }
    specialize (Hall (w, ratio (count_eqb String.eqb w xs) n)).
    simpl in Hall. apply (ratio_le _ _ n). apply Hall.
    apply in_map_iff. exists w. auto.
  - reflexivity.
Qed.

(** [first_max] on floats none of which is NaN. *)
Lemma first_max_nan_split {A : Type} (l : list (A * option Q)) (r : A * option Q) :
  Forall (fun x => exists g, snd x = Some g) l ->
  first_max gt_nan l = Some r ->
  exists pre post q,
    l = pre ++ r :: post
    /\ snd r = Some q
    /\ Forall (fun x => exists g, snd x = Some g /\ (g < q)%Q) pre
    /\ Forall (fun x => exists g, snd x = Some g /\ (g <= q)%Q) post.
Proof.
  intros G H.
  destruct (first_max_split gt_nan (fun k => exists g, k = Some g) (A := A))
    with (l := l) (r := r) as (pre & post & E & H1 & H2); auto.
  - intros a b c [x ->] [y ->] [z ->]. unfold gt_nan. simpl.
    rewrite !Qltb_lt. intros; eapply Qlt_trans; eassumption.
  - intros a b c [x ->] [y ->] [z ->]. unfold gt_nan. simpl.
    rewrite !Qltb_ge. intros; eapply Qle_trans; eassumption.
  - assert (Hr : In r l) by (rewrite E; apply in_elt).
    rewrite Forall_forall in G. destruct (G _ Hr) as [q Hq].
    exists pre, post, q. split; [assumption |]. split; [assumption |].
    rewrite Forall_forall in H1, H2. split; apply Forall_forall.
    + intros x Hx. destruct (G x) as [g Hg].
      { rewrite E. apply in_or_app. auto. }
      exists g. split; [assumption |].
      specialize (H1 _ Hx). rewrite Hq, Hg in H1. unfold gt_nan in H1. simpl in H1.
      apply Qltb_lt. assumption.
    + intros x Hx. destruct (G x) as [g Hg].
      { rewrite E. apply in_or_app. right. right. assumption. }
      exists g. split; [assumption |].
      specialize (H2 _ Hx). rewrite Hq, Hg in H2. unfold gt_nan in H2. simpl in H2.
      apply Qltb_ge. assumption.
Qed.

Lemma cat_counts_selected (df : DataFrame) :
  NoDup (columns df) ->
  cat_counts_from df (select_dtypes is_object df) =
    Ok (map (fun x => (fst x, top_frequency (snd x))) (categorical_entries df)).
Proof.
  intros Hnd. unfold cat_counts_from, categorical_entries.
  apply fill_dict_selected; auto.
Qed.

Lemma insight_imbalance_picks (df : DataFrame) :
  NoDup (columns df) ->
  (forall c vals, In (c, Object vals) df -> dropna vals <> []) ->
  categorical_entries df <> [] ->
  exists pre c vals post f,
    categorical_entries df = pre ++ (c, Object vals) :: post
    /\ is_top_frequency vals f
    /\ insight_imbalance (select_dtypes is_object df) df = Ok (Some (c, Some (f * 100)%Q))
    /\ Forall (dominated true f) pre
    /\ Forall (dominated false f) post.
Proof.
  intros Hnd Hfull Hne.
  set (d := map (fun x => (fst x, top_frequency (snd x))) (categorical_entries df)).
  assert (Hobj : forall x, In x (categorical_entries df) ->
                   exists vals, snd x = Object vals /\ dropna vals <> []).
  { intros [c s] Hx. apply filter_In in Hx. destruct Hx as [Hin Hs].
    destruct s as [|vals| |]; try discriminate.
    exists vals. split; [reflexivity | eapply Hfull; eassumption]. }
  assert (Hgood : Forall (fun x => exists g, snd x = Some g) d).
  { subst d. apply Forall_forall. intros x Hx. apply in_map_iff in Hx.
    destruct Hx as (y & <- & Hy). destruct (Hobj _ Hy) as (vals & Ey & Hv).
    simpl. rewrite Ey. destruct (top_frequency_object vals Hv) as (f & Hf & _). eauto. }
  assert (Hd : d <> []).
  { subst d. destruct (categorical_entries df); [congruence | discriminate]. }
  destruct (first_max_some gt_nan d Hd) as [[c k] Hr].
  destruct (first_max_nan_split _ _ Hgood Hr) as (pre' & post' & q & E & Hq & H1 & H2).
  simpl in Hq. subst k.
  destruct (map_split_inv _ _ _ _ _ E) as (pre & [c' s] & post & Ed & Epre & Ex & Epost).
  simpl in Ex. injection Ex as -> Hs.
  destruct (Hobj (c, s)) as (vals & Es & Hv).
  { rewrite Ed. apply in_elt. }
  simpl in Es. subst s.
  destruct (top_frequency_object vals Hv) as (f & Hf & Htop).
  rewrite Hf in Hs. injection Hs as ->.
  exists pre, c, vals, post, q. split; [assumption |]. split; [assumption |].
  subst pre' post'. rewrite Forall_map in H1, H2.
  split; [| split; assumption].
  unfold insight_imbalance.
  destruct (select_dtypes is_object df) as [|c0 cols] eqn:Ecols.
  { unfold select_dtypes in Ecols. fold (categorical_entries df) in Ecols.
    rewrite Ed in Ecols. destruct pre; discriminate. }
  rewrite <- Ecols. rewrite cat_counts_selected by assumption.
  cbn [bind]. fold d. unfold py_max. rewrite Hr. cbn [bind fst].
  rewrite E. rewrite assoc_get_picked; [reflexivity |].
  rewrite <- E. subst d. rewrite map_map. simpl.
  apply nodup_filter_keys. assumption.
Qed.

(** C6.  On a table whose text columns each hold at least one value, as
    they do whenever the block is reached ([read_csv] types a column without
    any value as numeric, and a table without rows, after [dropna] or from a
    file with only a header, ends the run at line 68 or 70): without text
    columns the insight is not applicable; otherwise it names the first text
    column, in declaration order, whose most frequent value has the largest
    relative frequency among the column's non-missing cells, and gives that
    frequency times 100 as the dominance, so a frequency of 4/5 is reported
    as 80. *)
Theorem imbalance_insight_dominance (df : DataFrame)
    (Hnames : NoDup (columns df))
    (Hfull : forall c vals, In (c, Object vals) df -> dropna vals <> []) :
  (categorical_entries df = [] ->
     insight_imbalance (select_dtypes is_object df) df = Ok None)
  /\ (categorical_entries df <> [] ->
      exists pre c vals post f,
        categorical_entries df = pre ++ (c, Object vals) :: post
        /\ is_top_frequency vals f
        /\ insight_imbalance (select_dtypes is_object df) df
             = Ok (Some (c, Some (f * 100)%Q))
        /\ Forall (dominated true f) pre
        /\ Forall (dominated false f) post
        /\ ((f == 4 # 5)%Q -> (f * 100 == 80)%Q)).
Proof.
  split.
  - intros H. unfold select_dtypes. fold (categorical_entries df). rewrite H. reflexivity.
  - intros Hne.
    destruct (insight_imbalance_picks df Hnames Hfull Hne)
      as (pre & c & vals & post & f & H1 & H2 & H3 & H4 & H5).
    exists pre, c, vals, post, f. repeat (split; [assumption |]).
    intros ->. reflexivity.
Qed.

(** ** Insight 1 *)

Lemma in_numeric_frame (df : DataFrame) (c : string) (vals : list (option Q)) :
  In (c, vals) (numeric_frame df) <-> In (c, Float64 vals) df.
Proof.
  induction df as [|[name s] df IH]; simpl; [tauto |].
  destruct s; simpl; rewrite IH; split; intros H;
    try (destruct H as [H | H]; [try discriminate | auto]); auto.
  - left. congruence.
  - left. congruence.
Qed.

Lemma nodup_numeric_frame (df : DataFrame) :
  NoDup (columns df) -> NoDup (map fst (numeric_frame df)).
Proof.
  unfold columns. induction df as [|[name s] df IH]; simpl; intros H; [constructor |].
  inversion H as [|? ? Hx Hl]; subst.
  destruct s; auto. simpl. constructor; auto.
  intros Hin. apply Hx. apply in_map_iff in Hin. destruct Hin as ([c v] & <- & Hy).
  apply in_numeric_frame in Hy. apply (in_map fst) in Hy. assumption.
Qed.

Lemma nodup_keys_unique {V : Type} (l : list (string * V)) (k : string) (v w : V) :
  NoDup (map fst l) -> In (k, v) l -> In (k, w) l -> v = w.
Proof.
  induction l as [|[k' v'] l IH]; simpl; intros Hnd Hv Hw; [tauto |].
  inversion Hnd as [|? ? Hx Hl]; subst.
  destruct Hv as [Hv | Hv], Hw as [Hw | Hw].
  - congruence.
  - injection Hv as -> ->. exfalso. apply Hx. apply (in_map fst) in Hw. assumption.
  - injection Hw as -> ->. exfalso. apply Hx. apply (in_map fst) in Hv. assumption.
  - auto.
Qed.

Lemma in_dropna_labelled {A : Type} (a : A) (q : Q) (l : list (A * option Q)) :
  In (a, q) (dropna_labelled l) <-> In (a, Some q) l.
Proof.
  induction l as [|[b [x|]] l IH]; simpl.
  - tauto.
  - rewrite IH. split; intros [H | H]; auto; left; congruence.
  - rewrite IH. split; [auto | intros [H | H]; [discriminate | assumption]].
Qed.

Section CorrelationFacts.

Variable sort_values :
  list ((string * string) * option Q) -> list ((string * string) * option Q).
Variable pearson : list (option Q) -> list (option Q) -> option Q.

(** All that is assumed of [sort_values]: it rearranges the entries. *)
Hypothesis sort_values_perm : forall l, Permutation (sort_values l) l.

(** The entries of [corr.abs().unstack()]: one per ordered pair of numeric
    columns, labelled (column, row). *)
Lemma in_unstack_corr (cols : list (string * list (option Q)))
    (c r : string) (k : option Q) :
  In ((c, r), k) (unstack (frame_abs (DataFrame_corr pearson cols)))
  <-> exists vc vr,
        In (c, vc) cols /\ In (r, vr) cols /\ k = option_map Qabs (pearson vr vc).
Proof.
  unfold unstack, frame_abs, DataFrame_corr.
  rewrite in_flat_map. split.
  - intros ([c' col] & Hc & He). simpl in He.
    apply in_map_iff in Hc. destruct Hc as ([c'' col'] & Hc & Hc').
    simpl in Hc. injection Hc as -> <-.
    apply in_map_iff in Hc'. destruct Hc' as ([c3 vc] & Hc3 & Hin).
    simpl in Hc3. injection Hc3 as -> <-.
    apply in_map_iff in He. destruct He as ([r' k'] & He & Hr).
    simpl in He. injection He as -> ->.
    apply in_map_iff in Hr. destruct Hr as ([r2 k2] & Hr & Hr').
    simpl in Hr. injection Hr as -> <-.
    apply in_map_iff in Hr'. destruct Hr' as ([r3 vr] & Hr3 & Hin').
    simpl in Hr3. injection Hr3 as -> <-.
    exists vc, vr. auto.
  - intros (vc & vr & Hc & Hr & ->).
    exists (c, map (fun e => (fst e, option_map Qabs (snd e)))
                 (map (fun r0 => (fst r0, pearson (snd r0) vc)) cols)).
    split.
    + apply in_map_iff.
      exists (c, map (fun r0 => (fst r0, pearson (snd r0) vc)) cols).
      split; [reflexivity |].
      apply in_map_iff. exists (c, vc). auto.
    + simpl. apply in_map_iff. exists (r, option_map Qabs (pearson vr vc)).
      split; [reflexivity |].
      apply in_map_iff. exists (r, pearson vr vc). split; [reflexivity |].
      apply in_map_iff. exists (r, vr). auto.
Qed.

(** The entries that survive [cor_pairs[cor_pairs < 1]]. *)
Lemma in_cor_pairs (cols : list (string * list (option Q)))
    (c r : string) (q : Q) :
  In ((c, r), q)
     (dropna_labelled
        (below_one (sort_values (unstack (frame_abs (DataFrame_corr pearson cols))))))
  <-> (q < 1)%Q
      /\ exists vc vr,
           In (c, vc) cols /\ In (r, vr) cols
           /\ option_map Qabs (pearson vr vc) = Some q.
Proof.
  rewrite in_dropna_labelled. unfold below_one. rewrite filter_In. simpl.
  rewrite Qltb_lt. split.
  - intros [Hin Hlt]. split; [assumption |].
    apply (Permutation_in _ (sort_values_perm _)) in Hin.
    apply in_unstack_corr in Hin. destruct Hin as (vc & vr & Hc & Hr & E). eauto.
  - intros [Hlt (vc & vr & Hc & Hr & E)]. split; [| assumption].
    apply (Permutation_in _ (Permutation_sym (sort_values_perm _))).
    apply in_unstack_corr. eauto.
Qed.

(** C4, amended.  On a table with distinct column names whose correlation
    frame has a unit (or NaN) diagonal and at least one pair of distinct
    numeric columns with |r| < 1, the insight reports two distinct numeric
    columns and the absolute value of their correlation; that value lies in
    [0, 1) and is the largest among the off-diagonal absolute entries that
    are below 1. *)
Theorem correlated_pair_max_below_one (df : DataFrame)
    (Hnames : NoDup (columns df))
    (Hdiag : forall c vals, In (c, Float64 vals) df ->
               pearson vals vals = None
               \/ exists x, pearson vals vals = Some x /\ (x == 1)%Q)
    (Hpair : exists a va b vb w,
               In (a, Float64 va) df /\ In (b, Float64 vb) df /\ a <> b
               /\ pearson vb va = Some w /\ (Qabs w < 1)%Q) :
  exists a b v,
    insight_correlated sort_values (Some (DataFrame_corr pearson (numeric_frame df)))
      = Ok (Some (a, b, Some v))
    /\ a <> b
    /\ (exists va vb,
          In (a, Float64 va) df /\ In (b, Float64 vb) df
          /\ option_map Qabs (pearson vb va) = Some v)
    /\ (0 <= v)%Q /\ (v < 1)%Q
    /\ (forall c vc r vr w,
          In (c, Float64 vc) df -> In (r, Float64 vr) df -> c <> r ->
          pearson vr vc = Some w -> (Qabs w < 1)%Q -> (Qabs w <= v)%Q).
Proof.
  set (cols := numeric_frame df).
  set (L := dropna_labelled
              (below_one (sort_values (unstack (frame_abs (DataFrame_corr pearson cols)))))).
  assert (Hin : forall c r q,
            In ((c, r), q) L
            <-> (q < 1)%Q
                /\ exists vc vr, In (c, Float64 vc) df /\ In (r, Float64 vr) df
                                 /\ option_map Qabs (pearson vr vc) = Some q).
  { intros c r q. subst L. rewrite in_cor_pairs.
    subst cols. split; intros [Hlt (vc & vr & Hc & Hr & E)]; (split; [assumption |]);
      exists vc, vr.
    - apply in_numeric_frame in Hc. apply in_numeric_frame in Hr. auto.
    - split; [apply in_numeric_frame; assumption |].
      split; [apply in_numeric_frame; assumption | assumption]. }
  assert (HL : L <> []).
  { destruct Hpair as (a & va & b & vb & w & Ha & Hb & _ & Hw & Hlt).
    assert (H : In ((a, b), Qabs w) L).
    { apply Hin. split; [assumption |]. exists va, vb. rewrite Hw. auto. }
    intros E. rewrite E in H. destruct H. }
  destruct (first_max_some Qgtb L HL) as [[[a b] v] Hr].
  destruct (first_max_Q_split _ _ Hr) as (pre & post & E & H1 & H2).
  assert (Hall : forall e, In e L -> (snd e <= v)%Q).
  { intros e He. rewrite E in He. apply in_app_iff in He.
    rewrite Forall_forall in H1, H2.
    destruct He as [He | [<- | He]].
    - apply Qlt_le_weak. apply (H1 _ He).
    - apply Qle_refl.
    - apply (H2 _ He). }
  assert (Hv : In ((a, b), v) L) by (rewrite E; apply in_elt).
  apply Hin in Hv. destruct Hv as [Hlt (va & vb & Ha & Hb & Eabs)].
  exists a, b, v. split; [| split; [| split; [| split; [| split]]]].
  - unfold insight_correlated, idxmax_float, max_float, idxmax, series_max.
    fold cols. fold L. rewrite Hr. reflexivity.
  - intros <-.
    assert (Esame : Float64 va = Float64 vb).
    { eapply (nodup_keys_unique df a); eassumption. }
    injection Esame as <-. destruct (Hdiag _ _ Ha) as [Hn | (x & Hx & Hone)].
    + rewrite Hn in Eabs. discriminate.
    + rewrite Hx in Eabs. simpl in Eabs. injection Eabs as Eabs.
      rewrite <- Eabs, Hone in Hlt. revert Hlt. apply Qlt_irrefl.
  - exists va, vb. auto.
  - destruct (pearson vb va) as [w|]; [| discriminate].
    simpl in Eabs. injection Eabs as <-. apply Qabs_nonneg.
  - assumption.
  - intros c vc r vr w Hc Hr' Hne Hw Hw1.
    apply (Hall ((c, r), Qabs w)). apply Hin. split; [assumption |].
    exists vc, vr. rewrite Hw. auto.
Qed.

End CorrelationFacts.

(** ** Insight 5: which column is converted *)

Section TrendFacts.

Variable parse_datetime : string -> option Z.

Lemma parse_all_cells (vals : list (option string)) (ds : list (option Z)) :
  parse_all parse_datetime vals = Some ds ->
  fully_parses parse_datetime vals
  /\ ds = parsed_cells parse_datetime (Object vals).
Proof.
  revert ds. induction vals as [|[x|] vals IH]; simpl; intros ds H.
  - injection H as <-. split; [intros s [] | reflexivity].
  - destruct (parse_datetime x) as [d|] eqn:Ex; [| discriminate].
    destruct (parse_all parse_datetime vals) as [ds'|]; [| discriminate].
    injection H as <-. destruct (IH _ eq_refl) as [Hf ->]. split.
    + intros s [Hs | Hs]; [injection Hs as <-; congruence | apply Hf; assumption].
    + simpl. reflexivity.
  - destruct (parse_all parse_datetime vals) as [ds'|]; [| discriminate].
    simpl in H. injection H as <-. destruct (IH _ eq_refl) as [Hf ->]. split.
    + intros s [Hs | Hs]; [discriminate | apply Hf; assumption].
    + reflexivity.
Qed.

Lemma parse_all_fully (vals : list (option string)) :
  fully_parses parse_datetime vals ->
  parse_all parse_datetime vals = Some (parsed_cells parse_datetime (Object vals)).
Proof.
  induction vals as [|[x|] vals IH]; simpl; intros H.
  - reflexivity.
  - destruct (parse_datetime x) as [d|] eqn:Ex.
    + rewrite IH; [reflexivity |]. intros s Hs. apply H. right. assumption.
    + exfalso. apply (H x); [left; reflexivity | assumption].
  - rewrite IH; [reflexivity |]. intros s Hs. apply H. right. assumption.
Qed.

Lemma usable_is_candidate (s : Series) :
  usable_as_datetime parse_datetime s -> is_datetime_or_object s = true.
Proof. destruct s; simpl; tauto. Qed.

Lemma usable_converts (s : Series) :
  usable_as_datetime parse_datetime s ->
  to_datetime parse_datetime s = Ok (Datetime64 (parsed_cells parse_datetime s)).
Proof.
  destruct s as [|vals| |]; simpl; try tauto.
  intros H. rewrite (parse_all_fully vals H). reflexivity.
Qed.

Lemma unusable_raises (s : Series) :
  is_datetime_or_object s = true ->
  ~ usable_as_datetime parse_datetime s ->
  exists e, to_datetime parse_datetime s = Raise e.
Proof.
  destruct s as [|vals| |]; simpl; try discriminate; intros _ H.
  - destruct (parse_all parse_datetime vals) as [ds|] eqn:E; [| eauto].
    apply parse_all_cells in E. tauto.
  - tauto.
Qed.

Lemma usable_dec (s : Series) :
  {usable_as_datetime parse_datetime s} + {~ usable_as_datetime parse_datetime s}.
Proof.
  destruct s as [|vals| |]; simpl; auto.
  destruct (parse_all parse_datetime vals) as [ds|] eqn:E.
  - left. apply parse_all_cells in E. tauto.
  - right. intros H. rewrite (parse_all_fully vals H) in E. discriminate.
Qed.

(** Either no column is usable, or there is a first usable one. *)
Lemma first_usable (df : DataFrame) :
  Forall (fun x => ~ usable_as_datetime parse_datetime (snd x)) df
  \/ exists pre c s post,
       df = pre ++ (c, s) :: post
       /\ usable_as_datetime parse_datetime s
       /\ Forall (fun x => ~ usable_as_datetime parse_datetime (snd x)) pre.
Proof.
  induction df as [|[c s] df IH]; [left; constructor |].
  destruct (usable_dec s) as [Hu | Hu].
  - right. exists [], c, s, df. auto.
  - destruct IH as [IH | (pre & c' & s' & post & -> & Hs & Hpre)].
    + left. constructor; assumption.
    + right. exists ((c, s) :: pre), c', s', post. repeat split; auto.
Qed.

Lemma assoc_set_found {V : Type} (pre post : list (string * V)) (k : string) (v w : V) :
  ~ In k (map fst pre) ->
  assoc_set (pre ++ (k, v) :: post) k w = pre ++ (k, w) :: post.
Proof.
  induction pre as [|[k' v'] pre IH]; simpl; intros H.
  - rewrite String.eqb_refl. reflexivity.
  - destruct (String.eqb k' k) eqn:E.
    + apply String.eqb_eq in E. tauto.
    + rewrite IH by tauto. reflexivity.
Qed.

Lemma select_dtypes_cons (p : Series -> bool) (c : string) (s : Series) (df : DataFrame) :
  select_dtypes p ((c, s) :: df)
  = if p s then c :: select_dtypes p df else select_dtypes p df.
Proof. unfold select_dtypes. simpl. destruct (p s); reflexivity. Qed.

Lemma select_number_frame (df : DataFrame) :
  select_dtypes is_number df = map fst (numeric_frame df).
Proof.
  unfold select_dtypes. induction df as [|[c s] df IH]; [reflexivity |].
  destruct s; simpl; congruence.
Qed.

(** The body of the [try] on a usable column: the column is overwritten
    with its timestamps and the body completes. *)
Lemma try_column_usable (df done rest : DataFrame) (c : string) (s : Series) :
  NoDup (columns df) ->
  df = done ++ (c, s) :: rest ->
  usable_as_datetime parse_datetime s ->
  try_column parse_datetime (select_dtypes is_number df) c df
  = (Ok (trend_of df c (parsed_cells parse_datetime s)),
     done ++ (c, Datetime64 (parsed_cells parse_datetime s)) :: rest).
Proof.
  intros Hnd Ed Hu.
  set (tv := parsed_cells parse_datetime s).
  assert (Hfresh : ~ In c (map fst done)).
  { unfold columns in Hnd. rewrite Ed in Hnd. apply nodup_keys_split in Hnd. tauto. }
  assert (Hnd' : NoDup (columns (done ++ (c, Datetime64 tv) :: rest))).
  { unfold columns in Hnd |- *. rewrite Ed in Hnd. rewrite map_app in Hnd |- *. exact Hnd. }
  assert (Hget : getitem df c = Ok s).
  { unfold getitem. rewrite Ed. apply assoc_get_found. assumption. }
  assert (Hset : setitem df c (Datetime64 tv) = done ++ (c, Datetime64 tv) :: rest).
  { unfold setitem. rewrite Ed. apply assoc_set_found. assumption. }
  unfold try_column. rewrite Hget. cbn [bind].
  rewrite (usable_converts s Hu). fold tv. cbv zeta. rewrite Hset.
  f_equal.
  rewrite select_number_frame. unfold trend_of.
  destruct (numeric_frame df) as [|[y yv] nf] eqn:Enf; [reflexivity |].
  cbn [map fst]. unfold df_time, getitem.
  rewrite assoc_get_found by assumption. cbn [bind].
  assert (Hy : In (y, Float64 yv) (done ++ (c, Datetime64 tv) :: rest)).
  { assert (H : In (y, Float64 yv) df).
    { apply in_numeric_frame. rewrite Enf. left. reflexivity. }
    rewrite Ed in H. apply in_elt_inv in H. destruct H as [H | H].
    - injection H as <- <-. destruct Hu.
    - apply in_app_iff in H. apply in_app_iff. simpl. tauto. }
  apply getitem_in in Hy; [| assumption]. unfold getitem in Hy. rewrite Hy.
  reflexivity.
Qed.

Lemma try_column_unusable (nc : list string) (df : DataFrame) (c : string) (s : Series) :
  getitem df c = Ok s ->
  is_datetime_or_object s = true ->
  ~ usable_as_datetime parse_datetime s ->
  exists e, try_column parse_datetime nc c df = (Raise e, df).
Proof.
  intros Hget Hc Hu. destruct (unusable_raises s Hc Hu) as [e He].
  exists e. unfold try_column. rewrite Hget. cbn [bind]. rewrite He. reflexivity.
Qed.

(** The loop of lines 101-114, scanned over the columns still to visit:
    unusable columns are passed over and leave the table as it is; the
    first usable column ends the loop. *)
Lemma trend_loop_scan (df : DataFrame) :
  NoDup (columns df) ->
  forall rest done,
    df = done ++ rest ->
    (Forall (fun x => ~ usable_as_datetime parse_datetime (snd x)) rest ->
     trend_loop parse_datetime (select_dtypes is_number df)
                (select_dtypes is_datetime_or_object rest) df = (None, df))
    /\ (forall pre c s post,
          rest = pre ++ (c, s) :: post ->
          Forall (fun x => ~ usable_as_datetime parse_datetime (snd x)) pre ->
          usable_as_datetime parse_datetime s ->
          trend_loop parse_datetime (select_dtypes is_number df)
                     (select_dtypes is_datetime_or_object rest) df
          = (trend_of df c (parsed_cells parse_datetime s),
             done ++ pre ++ (c, Datetime64 (parsed_cells parse_datetime s)) :: post)).
Proof.
  intros Hnd rest. induction rest as [|[c0 s0] rest IH]; intros done Ed.
  - split; [reflexivity |]. intros pre c s post H. destruct pre; discriminate.
  - assert (Ed' : df = (done ++ [(c0, s0)]) ++ rest).
    { rewrite <- app_assoc. exact Ed. }
    destruct (IH _ Ed') as [IHnone IHsome].
    assert (Hskip : ~ usable_as_datetime parse_datetime s0 ->
              trend_loop parse_datetime (select_dtypes is_number df)
                (select_dtypes is_datetime_or_object ((c0, s0) :: rest)) df
              = trend_loop parse_datetime (select_dtypes is_number df)
                  (select_dtypes is_datetime_or_object rest) df).
    { intros Hu. rewrite select_dtypes_cons.
      destruct (is_datetime_or_object s0) eqn:Hc; [| reflexivity].
      cbn [trend_loop].
      destruct (try_column_unusable (select_dtypes is_number df) df c0 s0) as [e He];
        auto.
      - apply getitem_in; [assumption |]. rewrite Ed. apply in_elt.
      - rewrite He. reflexivity. }
    split.
    + intros Hall. apply Forall_cons_iff in Hall. destruct Hall as [Hu Hrest].
      rewrite Hskip by exact Hu. apply IHnone. assumption.
    + intros pre c s post Erest Hpre Hu.
      destruct pre as [|x pre].
      * simpl in Erest. injection Erest as -> -> ->.
        rewrite select_dtypes_cons.
        rewrite (usable_is_candidate _ Hu). cbn [trend_loop].
        rewrite (try_column_usable df done post c s Hnd Ed Hu). reflexivity.
      * simpl in Erest. injection Erest as Ex Er.
        apply Forall_cons_iff in Hpre. destruct Hpre as [Hx Hpre'].
        rewrite <- Ex in Hx. rewrite Hskip by exact Hx.
        rewrite (IHsome pre c s post Er Hpre' Hu).
        rewrite <- Ex. rewrite <- app_assoc. reflexivity.
Qed.

Lemma insight_trend_none (df : DataFrame) :
  NoDup (columns df) ->
  Forall (fun x => ~ usable_as_datetime parse_datetime (snd x)) df ->
  insight_trend parse_datetime (select_dtypes is_number df) df = (None, df).
Proof.
  intros Hnd H. unfold insight_trend.
  destruct (trend_loop_scan df Hnd df [] eq_refl) as [Hnone _]. auto.
Qed.

Lemma insight_trend_first (df pre post : DataFrame) (c : string) (s : Series) :
  NoDup (columns df) ->
  df = pre ++ (c, s) :: post ->
  Forall (fun x => ~ usable_as_datetime parse_datetime (snd x)) pre ->
  usable_as_datetime parse_datetime s ->
  insight_trend parse_datetime (select_dtypes is_number df) df
  = (trend_of df c (parsed_cells parse_datetime s),
     pre ++ (c, Datetime64 (parsed_cells parse_datetime s)) :: post).
Proof.
  intros Hnd Ed Hpre Hu. unfold insight_trend.
  destruct (trend_loop_scan df Hnd df [] eq_refl) as [_ Hsome].
  apply (Hsome pre c s post Ed Hpre Hu).
Qed.

(** ** Insight 5: the points of the trend *)












End TrendFacts.

(** ** The whole run *)

Section ScriptFacts.

Variable sort_values :
  list ((string * string) * option Q) -> list ((string * string) * option Q).
Variable pearson : list (option Q) -> list (option Q) -> option Q.
Variable parse_datetime : string -> option Z.

(** The table is touched by the last insight only. *)
Lemma key_insights_table (df : DataFrame) :
  (forall e, fst (key_insights sort_values pearson parse_datetime df) = Raise e ->
             snd (key_insights sort_values pearson parse_datetime df) = df)
  /\ (forall r, fst (key_insights sort_values pearson parse_datetime df) = Ok r ->
                snd (key_insights sort_values pearson parse_datetime df)
                = snd (insight_trend parse_datetime (select_dtypes is_number df) df)).
Proof.
  unfold key_insights.
  destruct (i1 <- insight_correlated sort_values _ ;;
            i2 <- insight_missing df ;;
            i3 <- insight_imbalance (select_dtypes is_object df) df ;;
            i4 <- insight_outliers (select_dtypes is_number df) df ;;
            Ok (i1, i2, i3, i4)) as [[[[i1 i2] i3] i4] | e].
  - destruct (insight_trend parse_datetime (select_dtypes is_number df) df) as [i5 df'].
    simpl. split; [discriminate | reflexivity].
  - simpl. split; [reflexivity | discriminate].
Qed.

(** C3, amended.  A run changes at most one column of the table: when the
    first four insights complete, the first column (in declaration order)
    that is datetime-typed or text parsing in full is overwritten by its
    timestamps, every other column and the column order staying as they
    were; when an earlier insight raises, or no column is usable, the table
    is left as it was. *)
Theorem key_insights_table_effect (df : DataFrame) (Hnames : NoDup (columns df)) :
  (forall e, fst (key_insights sort_values pearson parse_datetime df) = Raise e ->
             snd (key_insights sort_values pearson parse_datetime df) = df)
  /\ (Forall (fun x => ~ usable_as_datetime parse_datetime (snd x)) df ->
        snd (key_insights sort_values pearson parse_datetime df) = df)
  /\ (forall r pre c s post,
        fst (key_insights sort_values pearson parse_datetime df) = Ok r ->
        df = pre ++ (c, s) :: post ->
        Forall (fun x => ~ usable_as_datetime parse_datetime (snd x)) pre ->
        usable_as_datetime parse_datetime s ->
        snd (key_insights sort_values pearson parse_datetime df)
        = pre ++ (c, Datetime64 (parsed_cells parse_datetime s)) :: post)
  /\ columns (snd (key_insights sort_values pearson parse_datetime df)) = columns df.
Proof.
  destruct (key_insights_table df) as [Hraise Hok].
  assert (H2 : Forall (fun x => ~ usable_as_datetime parse_datetime (snd x)) df ->
               snd (key_insights sort_values pearson parse_datetime df) = df).
  { intros Hnone.
    destruct (fst (key_insights sort_values pearson parse_datetime df)) as [r | e] eqn:E.
    - rewrite (Hok r eq_refl). rewrite insight_trend_none by assumption. reflexivity.
    - apply (Hraise e). reflexivity. }
  assert (H3 : forall r pre c s post,
        fst (key_insights sort_values pearson parse_datetime df) = Ok r ->
        df = pre ++ (c, s) :: post ->
        Forall (fun x => ~ usable_as_datetime parse_datetime (snd x)) pre ->
        usable_as_datetime parse_datetime s ->
        snd (key_insights sort_values pearson parse_datetime df)
        = pre ++ (c, Datetime64 (parsed_cells parse_datetime s)) :: post).
  { intros r pre c s post Hr Ed Hpre Hu. rewrite (Hok r Hr).
    rewrite (insight_trend_first parse_datetime df pre post c s Hnames Ed Hpre Hu). reflexivity. }
  split; [assumption |]. split; [assumption |]. split; [assumption |].
  destruct (fst (key_insights sort_values pearson parse_datetime df)) as [r | e] eqn:E.
  - destruct (first_usable parse_datetime df) as [H | (pre & c & s & post & Ed & Hu & Hpre)].
    + rewrite H2 by assumption. reflexivity.
    + rewrite (H3 r pre c s post eq_refl Ed Hpre Hu).
      rewrite Ed at 1. unfold columns. rewrite !map_app. reflexivity.
  - rewrite (Hraise e eq_refl). reflexivity.
Qed.

(** C2.  The insights are not isolated from one another: on a table
    without numeric columns the name [corr] is unbound when line 68 reads
    it, the run ends there with NameError, and nothing is reported, whatever
    the other insights would have given. *)
Theorem insights_halt_without_numeric (df : DataFrame) :
  select_dtypes is_number df = [] ->
  key_insights sort_values pearson parse_datetime df = (Raise NameError, df).
Proof.
  intros H. unfold key_insights. rewrite H. reflexivity.
Qed.

End ScriptFacts.

(** ** Independence from the order of equal correlations *)

Lemma perm_filter {A : Type} (f : A -> bool) (l1 l2 : list A) :
  Permutation l1 l2 -> Permutation (filter f l1) (filter f l2).
Proof.
  induction 1 as [| x l1 l2 _ IH | x y l | l1 l2 l3 _ IH1 _ IH2]; simpl.
  - constructor.
  - destruct (f x); [constructor |]; assumption.
  - destruct (f x), (f y); try reflexivity. apply perm_swap.
  - eapply Permutation_trans; eassumption.
Qed.

Lemma perm_dropna_labelled {A : Type} (l1 l2 : list (A * option Q)) :
  Permutation l1 l2 -> Permutation (dropna_labelled l1) (dropna_labelled l2).
Proof.
  induction 1 as [| x l1 l2 _ IH | x y l | l1 l2 l3 _ IH1 _ IH2].
  - constructor.
  - destruct x as [a [q|]]; simpl; [constructor |]; assumption.
  - destruct x as [a [q|]], y as [b [r|]]; simpl; try reflexivity. apply perm_swap.
  - eapply Permutation_trans; eassumption.
Qed.

(** The maximum of a series of rationals does not depend on the order of
    its entries; only the label it is found under does. *)
Lemma first_max_perm {A : Type} (l1 l2 : list (A * Q)) :
  Permutation l1 l2 ->
  match first_max Qgtb l1, first_max Qgtb l2 with
  | Some r1, Some r2 => (snd r1 == snd r2)%Q
  | None, None => True
  | _, _ => False
  end.
Proof.
  intros HP.
  destruct (first_max Qgtb l1) as [r1|] eqn:E1, (first_max Qgtb l2) as [r2|] eqn:E2.
  - assert (Hle : forall (la lb : list (A * Q)) ra rb,
              Permutation la lb ->
              first_max Qgtb la = Some ra -> first_max Qgtb lb = Some rb ->
              (snd ra <= snd rb)%Q).
    { intros la lb ra rb HPab Ea Eb.
      destruct (first_max_Q_split _ _ Ea) as (pa & qa & Ha & _ & _).
      destruct (first_max_Q_split _ _ Eb) as (pb & qb & Hb & Hb1 & Hb2).
      assert (Hin : In ra lb).
      { apply (Permutation_in _ HPab). rewrite Ha. apply in_elt. }
      rewrite Hb in Hin. apply in_app_iff in Hin.
      rewrite Forall_forall in Hb1, Hb2.
      destruct Hin as [Hin | [<- | Hin]].
      - apply Qlt_le_weak. apply (Hb1 _ Hin).
      - apply Qle_refl.
      - apply (Hb2 _ Hin). }
    apply Qle_antisym.
    + apply (Hle l1 l2); assumption.
    + apply (Hle l2 l1); try assumption. apply Permutation_sym. assumption.
  - destruct l2; [| discriminate]. apply Permutation_sym, Permutation_nil in HP.
    subst. discriminate.
  - destruct l1; [| discriminate]. apply Permutation_nil in HP.
    subst. discriminate.
  - exact I.
Qed.

Section TieOrder.

Variables sort1 sort2 :
  list ((string * string) * option Q) -> list ((string * string) * option Q).
Variable pearson : list (option Q) -> list (option Q) -> option Q.
Variable parse_datetime : string -> option Z.

Hypothesis sort1_perm : forall l, Permutation (sort1 l) l.
Hypothesis sort2_perm : forall l, Permutation (sort2 l) l.

Lemma insight_correlated_tie_order (corr : option CorrFrame) :
  match insight_correlated sort1 corr, insight_correlated sort2 corr with
  | Ok (Some (_, _, v1)), Ok (Some (_, _, v2)) => eq_nan v1 v2
  | Raise e1, Raise e2 => e1 = e2
  | _, _ => False
  end.
Proof.
  destruct corr as [m|]; [| reflexivity].
  unfold insight_correlated, idxmax_float, max_float, idxmax, series_max.
  set (E := unstack (frame_abs m)).
  assert (HP : Permutation (dropna_labelled (below_one (sort1 E)))
                           (dropna_labelled (below_one (sort2 E)))).
  { apply perm_dropna_labelled. apply perm_filter.
    eapply Permutation_trans; [apply sort1_perm | apply Permutation_sym, sort2_perm]. }
  apply first_max_perm in HP.
  destruct (first_max Qgtb (dropna_labelled (below_one (sort1 E)))) as [[[a1 b1] v1]|],
           (first_max Qgtb (dropna_labelled (below_one (sort2 E)))) as [[[a2 b2] v2]|];
    simpl in *; auto.
Qed.

Lemma key_insights_ties (df : DataFrame) :
  same_up_to_ties (fst (key_insights sort1 pearson parse_datetime df))
                  (fst (key_insights sort2 pearson parse_datetime df))
  /\ snd (key_insights sort1 pearson parse_datetime df)
     = snd (key_insights sort2 pearson parse_datetime df).
Proof.
  unfold key_insights.
  set (corr := match select_dtypes is_number df with
               | [] => None
               | _ :: _ => Some (DataFrame_corr pearson (numeric_frame df))
               end).
  pose proof (insight_correlated_tie_order corr) as H1.
  destruct (insight_correlated sort1 corr) as [[[[a1 b1] v1]|]|e1],
           (insight_correlated sort2 corr) as [[[[a2 b2] v2]|]|e2];
    try contradiction; cbn [bind].
  - destruct (insight_missing df) as [i2|e]; cbn [bind]; [| simpl; auto].
    destruct (insight_imbalance (select_dtypes is_object df) df) as [i3|e];
      cbn [bind]; [| simpl; auto].
    destruct (insight_outliers (select_dtypes is_number df) df) as [i4|e];
      cbn [bind]; [| simpl; auto].
    destruct (insight_trend parse_datetime (select_dtypes is_number df) df) as [i5 df'].
    simpl. auto 10.
  - subst e2. simpl. auto.
Qed.

(** X6.  Whatever order [sort_values] leaves equal correlations in, a run ends
    with the same exception or with the same report up to the choice among
    tied pairs, and leaves the same table. *)
Lemma key_insights_tie_order (df : DataFrame) :
  same_up_to_ties (fst (key_insights sort1 pearson parse_datetime df))
                  (fst (key_insights sort2 pearson parse_datetime df))
  /\ snd (key_insights sort1 pearson parse_datetime df)
     = snd (key_insights sort2 pearson parse_datetime df).
Proof. exact (key_insights_ties df). Qed.

End TieOrder.

(** * Worked instances *)

Lemma insert_desc_perm (x : (string * string) * option Q)
    (l : list ((string * string) * option Q)) :
  Permutation (insert_desc x l) (x :: l).
Proof.
  induction l as [|y l IH]; simpl; [reflexivity |].
  destruct (snd x) as [a|], (snd y) as [b|];
    try destruct (Qle_bool b a); try reflexivity;
    rewrite IH; apply perm_swap.
Qed.

(** The stand-in for [sort_values] rearranges its entries. *)
Lemma sort_desc_perm (l : list ((string * string) * option Q)) :
  Permutation (sort_desc l) l.
Proof.
  induction l as [|x l IH]; simpl; [reflexivity |].
  rewrite insert_desc_perm. constructor. assumption.
Qed.

(** C1 at a table of two text columns. *)
Lemma outliers_unguarded_on_empty_witness :
  select_dtypes is_number table_no_numeric = []
  /\ insight_outliers (select_dtypes is_number table_no_numeric) table_no_numeric
     = Raise ValueError.
Proof.
  split; [reflexivity |].
  apply (outliers_unguarded_on_empty table_no_numeric). reflexivity.
Defined.

(** C2 at the same table: the missing-data and imbalance insights apply to
    it, yet the run ends at line 68 and reports neither. *)
Lemma insights_halt_without_numeric_witness :
  select_dtypes is_number table_no_numeric = []
  /\ insight_missing table_no_numeric = Ok (Some ("city"%string, 1))
  /\ insight_imbalance (select_dtypes is_object table_no_numeric) table_no_numeric
     = Ok (Some ("city"%string, Some (200 # 2)))
  /\ key_insights sort_desc pearson_table parse_iso_date table_no_numeric
     = (Raise NameError, table_no_numeric).
Proof.
  split; [reflexivity |]. split; [reflexivity |]. split; [reflexivity |].
  apply (insights_halt_without_numeric sort_desc pearson_table parse_iso_date
           table_no_numeric).
  reflexivity.
Defined.

(** C3 refuted as stated: a completed run leaves the column of dates
    converted, so the table it read is not the table it leaves. *)
Lemma run_converts_date_column :
  (exists r, fst (key_insights sort_desc pearson_table parse_iso_date table_mixed) = Ok r)
  /\ getitem table_mixed "day"
     = Ok (Object [Some "2020-01-01"%string; Some "2020-01-01"%string;
                   Some "2020-01-02"%string])
  /\ getitem (snd (key_insights sort_desc pearson_table parse_iso_date table_mixed)) "day"
     = Ok (Datetime64 [Some 20200101%Z; Some 20200101%Z; Some 20200102%Z])
  /\ snd (key_insights sort_desc pearson_table parse_iso_date table_mixed) <> table_mixed.
Proof.
  split; [eexists; vm_compute; reflexivity |].
  split; [reflexivity |]. split; [vm_compute; reflexivity |].
  vm_compute. intros H. discriminate H.
Qed.

(** C3, amended, at that table: the run completes and only the column of
    dates is replaced. *)
Lemma key_insights_table_effect_witness :
  NoDup (columns table_mixed)
  /\ snd (key_insights sort_desc pearson_table parse_iso_date table_mixed)
     = [("a"%string, Float64 (cells [1; 2; 3]%Z));
        ("b"%string, Float64 (cells [1; 3; 2]%Z))]
       ++ ("day"%string,
           Datetime64
             (parsed_cells parse_iso_date
                (Object [Some "2020-01-01"%string; Some "2020-01-01"%string;
                         Some "2020-01-02"%string])))
          :: [("city"%string, Object [Some "Oslo"%string; None; Some "Oslo"%string])].
Proof.
  assert (H : NoDup (columns table_mixed)) by distinct_names.
  split; [exact H |].
  destruct (key_insights_table_effect sort_desc pearson_table parse_iso_date table_mixed H)
    as (_ & _ & Hconv & _).
  eapply Hconv.
  - vm_compute. reflexivity.
  - reflexivity.
  - repeat constructor; simpl; tauto.
  - simpl. intros s [E | [E | [E | []]]]; injection E as <-; discriminate.
Defined.

(** C4 refuted as stated: with two collinear columns the only off-diagonal
    entries are 1, nothing survives [cor_pairs < 1], and [idxmax] raises;
    with a third column the insight reports 1/2 although the largest
    off-diagonal absolute entry is 1. *)
Lemma collinear_columns_escape_the_maximum :
  pearson_table (cells [1; 2; 3]%Z) (cells [2; 4; 6]%Z) = Some 1%Q
  /\ insight_correlated sort_desc
       (Some (DataFrame_corr pearson_table (numeric_frame table_collinear)))
     = Raise ValueError
  /\ fst (key_insights sort_desc pearson_table parse_iso_date table_collinear)
     = Raise ValueError
  /\ insight_correlated sort_desc
       (Some (DataFrame_corr pearson_table (numeric_frame table_collinear3)))
     = Ok (Some ("a"%string, "c"%string, Some (1 # 2))).
Proof. repeat split; vm_compute; reflexivity. Qed.

(** C4, amended, at a table whose two numeric columns have r = 1/2. *)
Lemma correlated_pair_max_below_one_witness :
  (forall l, Permutation (sort_desc l) l)
  /\ NoDup (columns table_mixed)
  /\ exists a b v,
       insight_correlated sort_desc
         (Some (DataFrame_corr pearson_table (numeric_frame table_mixed)))
       = Ok (Some (a, b, Some v))
       /\ a <> b
       /\ (exists va vb,
             In (a, Float64 va) table_mixed /\ In (b, Float64 vb) table_mixed
             /\ option_map Qabs (pearson_table vb va) = Some v)
       /\ (0 <= v)%Q /\ (v < 1)%Q
       /\ (forall c vc r vr w,
             In (c, Float64 vc) table_mixed -> In (r, Float64 vr) table_mixed -> c <> r ->
             pearson_table vr vc = Some w -> (Qabs w < 1)%Q -> (Qabs w <= v)%Q).
Proof.
  assert (H : NoDup (columns table_mixed)) by distinct_names.
  split; [exact sort_desc_perm |]. split; [exact H |].
  apply (correlated_pair_max_below_one sort_desc pearson_table sort_desc_perm table_mixed H).
  - intros c vals [E | [E | [E | [E | []]]]]; try discriminate E;
      injection E as <- <-; right; exists 1%Q; split; reflexivity.
  - exists "a"%string, (cells [1; 2; 3]%Z), "b"%string, (cells [1; 3; 2]%Z), (1 # 2)%Q.
    split; [left; reflexivity |]. split; [right; left; reflexivity |].
    split; [discriminate |]. split; reflexivity.
Defined.

(** C5 at a table whose only missing cell is a NaN of a numeric column. *)
Lemma missing_insight_first_max_witness :
  NoDup (columns table_numeric_gap)
  /\ has_missing (Float64 [Some 1%Q; None; Some 3%Q])
  /\ insight_missing table_numeric_gap = Ok (Some ("a"%string, 1)).
Proof.
  assert (H : NoDup (columns table_numeric_gap)) by distinct_names.
  split; [exact H |]. split; [simpl; tauto |].
  destruct (missing_insight_first_max table_numeric_gap H) as (_ & _ & _ & Hone).
  apply (Hone [("city"%string,
                Object [Some "Oslo"%string; Some "Rome"%string; Some "Oslo"%string])]
              "a"%string (Float64 [Some 1%Q; None; Some 3%Q])
              [("ok"%string, Boolean [true; false; true])]).
  - reflexivity.
  - reflexivity.
  - repeat constructor; simpl.
    + intros [E | [E | [E | []]]]; discriminate E.
    + tauto.
Defined.

(** C6 at a column where one value fills 80% of the present cells. *)
Lemma imbalance_insight_dominance_witness :
  NoDup (columns table_dominant)
  /\ (forall c vals, In (c, Object vals) table_dominant -> dropna vals <> [])
  /\ insight_imbalance (select_dtypes is_object table_dominant) table_dominant
     = Ok (Some ("kind"%string, Some (400 # 5)))
  /\ exists pre c vals post f,
       categorical_entries table_dominant = pre ++ (c, Object vals) :: post
       /\ is_top_frequency vals f
       /\ insight_imbalance (select_dtypes is_object table_dominant) table_dominant
          = Ok (Some (c, Some (f * 100)%Q))
       /\ Forall (dominated true f) pre
       /\ Forall (dominated false f) post
       /\ ((f == 4 # 5)%Q -> (f * 100 == 80)%Q).
Proof.
  assert (H : NoDup (columns table_dominant)) by distinct_names.
  assert (F : forall c vals, In (c, Object vals) table_dominant -> dropna vals <> []).
  { intros c vals [E | []]. injection E as <- <-. discriminate. }
  split; [exact H |]. split; [exact F |]. split; [reflexivity |].
  destruct (imbalance_insight_dominance table_dominant H F) as [_ Hsome].
  apply Hsome. discriminate.
Defined.



(** * Further properties of the script *)

(** ** The cleaning stage *)

Lemma keep_in {A : Type} (mask : list bool) (l : list A) (x : A) :
  In x (keep mask l) -> In x l.
Proof.
  revert l. induction mask as [|b mask IH]; intros [|y l]; simpl; try tauto.
  destruct b; simpl; intros H.
  - destruct H as [H | H]; [left; assumption | right; apply IH; assumption].
  - right. apply IH. assumption.
Qed.

Lemma keep_seq_in {A : Type} (f : nat -> bool) (l : list A) (k : nat) (x : A) :
  In x (keep (map f (seq k (List.length l))) l) ->
  exists j, nth_error l j = Some x /\ f (k + j) = true.
Proof.
  revert k. induction l as [|y l IH]; intros k; simpl; [tauto |].
  destruct (f k) eqn:E; simpl; intros H.
  - destruct H as [<- | H].
    + exists 0. rewrite Nat.add_0_r. auto.
    + destruct (IH _ H) as (j & Hj & Hf). exists (S j).
      rewrite Nat.add_succ_r. auto.
  - destruct (IH _ H) as (j & Hj & Hf). exists (S j).
    rewrite Nat.add_succ_r. auto.
Qed.

Lemma keep_length {A : Type} (mask : list bool) (l : list A) :
  List.length mask = List.length l ->
  List.length (keep mask l) = List.length (filter (fun b => b) mask).
Proof.
  revert l. induction mask as [|b mask IH]; intros [|y l]; simpl; try discriminate.
  - reflexivity.
  - intros H. injection H as H. destruct b; simpl; rewrite IH; auto.
Qed.

Lemma keep_all {A : Type} (mask : list bool) (l : list A) :
  List.length mask = List.length l ->
  forallb (fun b => b) mask = true ->
  keep mask l = l.
Proof.
  revert l. induction mask as [|b mask IH]; intros [|y l]; simpl; try discriminate.
  - reflexivity.
  - intros H Hall. injection H as H. apply andb_true_iff in Hall.
    destruct Hall as [-> Hall]. rewrite IH; auto.
Qed.

Lemma filter_mask_length {A : Type} (f : A -> bool) (l : list A) :
  List.length (filter (fun b => b) (map f l)) = List.length (filter f l).
Proof.
  induction l as [|x l IH]; simpl; [reflexivity |].
  destruct (f x); simpl; congruence.
Qed.

Lemma mask_length (df : DataFrame) :
  List.length (map (row_complete df) (seq 0 (nrows df))) = nrows df.
Proof. rewrite length_map, length_seq. reflexivity. Qed.

Lemma keep_rows_length (mask : list bool) (s : Series) :
  List.length mask = series_length s ->
  series_length (keep_rows mask s) = List.length (filter (fun b => b) mask).
Proof.
  destruct s; simpl; apply keep_length.
Qed.

Lemma existsb_is_none {A : Type} (l : list (option A)) :
  existsb is_none l = false <-> ~ In None l.
Proof.
  induction l as [|[x|] l IH]; simpl.
  - split; [tauto | reflexivity].
  - rewrite IH. split; [intros H [E | E]; [discriminate | tauto] | tauto].
  - split; [discriminate | tauto].
Qed.

Lemma count_none_zero {A : Type} (l : list (option A)) :
  ~ In None l -> count_none l = 0.
Proof.
  unfold count_none. induction l as [|[x|] l IH]; simpl; intros H.
  - reflexivity.
  - apply IH. tauto.
  - tauto.
Qed.

(** The cells a complete-row mask keeps are all present. *)
Lemma keep_complete_cells {A : Type} (f : nat -> bool) (v : list (option A)) :
  (forall j, f j = true -> nth_error v j <> Some None) ->
  ~ In None (keep (map f (seq 0 (List.length v))) v).
Proof.
  intros H Hin. apply keep_seq_in in Hin. destruct Hin as (j & Hj & Hf).
  simpl in Hf. apply (H j Hf). assumption.
Qed.

Lemma row_complete_cell (df : DataFrame) (c : string * Series) (i : nat) :
  In c df -> row_complete df i = true -> cell_isnull (snd c) i = false.
Proof.
  intros Hin H. unfold row_complete in H. rewrite forallb_forall in H.
  specialize (H c Hin). apply negb_true_iff in H. assumption.
Qed.

Lemma keep_rows_complete (df : DataFrame) (c : string * Series) :
  In c df -> series_length (snd c) = nrows df ->
  series_hasnull (keep_rows (map (row_complete df) (seq 0 (nrows df))) (snd c)) = false
  /\ isnull_sum (keep_rows (map (row_complete df) (seq 0 (nrows df))) (snd c)) = 0.
Proof.
  intros Hin Hlen.
  assert (Hcell : forall j, row_complete df j = true -> cell_isnull (snd c) j = false).
  { intros j. apply row_complete_cell. assumption. }
  rewrite <- Hlen. destruct (snd c) as [v|v|v|v]; simpl in *.
  - assert (H : ~ In None (keep (map (row_complete df) (seq 0 (List.length v))) v)).
    { apply keep_complete_cells. intros j Hj E. specialize (Hcell j Hj).
      rewrite E in Hcell. discriminate. }
    split; [apply existsb_is_none | apply count_none_zero]; assumption.
  - assert (H : ~ In None (keep (map (row_complete df) (seq 0 (List.length v))) v)).
    { apply keep_complete_cells. intros j Hj E. specialize (Hcell j Hj).
      rewrite E in Hcell. discriminate. }
    split; [apply existsb_is_none | apply count_none_zero]; assumption.
  - assert (H : ~ In None (keep (map (row_complete df) (seq 0 (List.length v))) v)).
    { apply keep_complete_cells. intros j Hj E. specialize (Hcell j Hj).
      rewrite E in Hcell. discriminate. }
    split; [apply existsb_is_none | apply count_none_zero]; assumption.
  - auto.
Qed.

Lemma cell_isnull_hasnull (s : Series) (i : nat) :
  series_hasnull s = false -> cell_isnull s i = false.
Proof.
  destruct s as [v|v|v|v]; simpl; auto; intros H; apply existsb_is_none in H;
    destruct (nth_error v i) as [[x|]|] eqn:E; auto;
    apply nth_error_In in E; tauto.
Qed.

Lemma row_complete_without_null (df : DataFrame) (i : nat) :
  isnull_any df = false -> row_complete df i = true.
Proof.
  unfold isnull_any, row_complete. intros H. apply forallb_forall. intros c Hc.
  apply negb_true_iff. apply cell_isnull_hasnull.
  destruct (series_hasnull (snd c)) eqn:E; [| reflexivity].
  assert (T : existsb (fun c0 => series_hasnull (snd c0)) df = true).
  { apply existsb_exists. exists c. auto. }
  congruence.
Qed.

Lemma keep_rows_all (mask : list bool) (s : Series) :
  List.length mask = series_length s ->
  forallb (fun b => b) mask = true ->
  keep_rows mask s = s.
Proof.
  destruct s; simpl; intros H1 H2; rewrite keep_all; auto.
Qed.

Lemma dropna_frame_columns (df : DataFrame) :
  forall c', In c' (dropna_frame df) ->
  exists c, In c df /\ c' = (fst c, keep_rows (map (row_complete df) (seq 0 (nrows df))) (snd c)).
Proof.
  intros c' H. unfold dropna_frame in H. apply in_map_iff in H.
  destruct H as (c & <- & Hc). eauto.
Qed.

Lemma keep_rows_dtype (mask : list bool) (s : Series) :
  same_dtype s (keep_rows mask s) = true.
Proof. destruct s; reflexivity. Qed.

Lemma nrows_dropna_frame (df : DataFrame) :
  nrows (dropna_frame df)
  = List.length (filter (row_complete df) (seq 0 (nrows df))).
Proof.
  destruct df as [|[c s] df]; [reflexivity |].
  unfold dropna_frame. cbn [map nrows fst snd].
  rewrite keep_rows_length.
  - apply filter_mask_length.
  - rewrite mask_length. reflexivity.
Qed.

Lemma select_dtypes_kept (p : Series -> bool) (df : DataFrame) :
  (forall s m, p (keep_rows m s) = p s) ->
  select_dtypes p (dropna_frame df) = select_dtypes p df.
Proof.
  intros Hp. unfold dropna_frame, select_dtypes.
  generalize (map (row_complete df) (seq 0 (nrows df))). intros mask.
  induction df as [|[c s] df IH]; simpl; [reflexivity |].
  rewrite Hp. destruct (p s); simpl; congruence.
Qed.

Lemma keep_rows_schema (mask : list bool) (df : DataFrame) :
  same_schema df (map (fun c => (fst c, keep_rows mask (snd c))) df).
Proof.
  unfold same_schema. induction df as [|c df IH]; simpl; constructor; auto.
  split; [reflexivity | apply keep_rows_dtype].
Qed.

(** No cell is missing after the rows with a missing cell are dropped. *)
Lemma dropna_frame_clean (df : DataFrame) :
  rectangular df ->
  isnull_any (dropna_frame df) = false
  /\ forall c, In c (dropna_frame df) -> isnull_sum (snd c) = 0.
Proof.
  intros Hrect. split.
  - unfold isnull_any. destruct (existsb _ (dropna_frame df)) eqn:E; [| reflexivity].
    apply existsb_exists in E. destruct E as (c' & Hc' & Hnull).
    destruct (dropna_frame_columns df c' Hc') as (c & Hc & ->). simpl in Hnull.
    destruct (keep_rows_complete df c Hc (Hrect c Hc)) as [H _]. congruence.
  - intros c' Hc'. destruct (dropna_frame_columns df c' Hc') as (c & Hc & ->). simpl.
    apply (keep_rows_complete df c Hc (Hrect c Hc)).
Qed.

(** After [dropna], as long as a row is left, every text column holds a
    value: the hypothesis under which the imbalance insight is stated. *)
Lemma dropna_frame_text_full (df : DataFrame) :
  rectangular df -> 0 < nrows (dropna_frame df) ->
  forall c vals, In (c, Object vals) (dropna_frame df) -> dropna vals <> [].
Proof.
  intros Hrect Hrows c vals Hin.
  destruct (dropna_frame_clean df Hrect) as [_ Hclean].
  pose proof (Hclean _ Hin) as Hz. simpl in Hz.
  pose proof (count_none_present vals) as Hlen.
  assert (Hn : List.length vals = nrows (dropna_frame df)).
  { destruct (dropna_frame_columns df _ Hin) as (c0 & Hc0 & E).
    set (mask := map (row_complete df) (seq 0 (nrows df))).
    assert (L : series_length (keep_rows mask (snd c0))
                = List.length (filter (fun b => b) mask)).
    { apply keep_rows_length. subst mask. rewrite mask_length.
      symmetry. apply Hrect. assumption. }
    assert (N : nrows (dropna_frame df) = List.length (filter (fun b => b) mask)).
    { rewrite nrows_dropna_frame. subst mask. symmetry. apply filter_mask_length. }
    rewrite N, <- L. injection E as _ E. fold mask in E. rewrite <- E. reflexivity. }
  intros Hnil. rewrite Hnil in Hlen. simpl in Hlen. lia.
Qed.

(** X1.  On a table whose columns share one length, [df.dropna()] (line 32)
    keeps the column names, their order and their dtypes, leaves columns of
    one common length, namely the number of rows that had no missing cell,
    leaves no missing cell in any column, returns the table itself when
    no cell was missing, and does not change which columns lines 39, 53 and
    100 select as numeric, categorical or date candidates. *)
Theorem dropna_frame_complete (df : DataFrame) (Hrect : rectangular df) :
  same_schema df (dropna_frame df)
  /\ rectangular (dropna_frame df)
  /\ nrows (dropna_frame df)
     = List.length (filter (row_complete df) (seq 0 (nrows df)))
  /\ nrows (dropna_frame df) <= nrows df
  /\ isnull_any (dropna_frame df) = false
  /\ (forall c, In c (dropna_frame df) -> isnull_sum (snd c) = 0)
  /\ (isnull_any df = false -> dropna_frame df = df)
  /\ select_dtypes is_number (dropna_frame df) = select_dtypes is_number df
  /\ select_dtypes is_object (dropna_frame df) = select_dtypes is_object df
  /\ select_dtypes is_datetime_or_object (dropna_frame df)
     = select_dtypes is_datetime_or_object df.
Proof.
  set (mask := map (row_complete df) (seq 0 (nrows df))).
  assert (Hlen : forall c, In c df ->
            series_length (keep_rows mask (snd c)) = List.length (filter (fun b => b) mask)).
  { intros c Hc. apply keep_rows_length. subst mask. rewrite mask_length.
    symmetry. apply Hrect. assumption. }
  assert (Hn : nrows (dropna_frame df) = List.length (filter (fun b => b) mask)).
  { rewrite nrows_dropna_frame. subst mask. symmetry. apply filter_mask_length. }
  split; [| split; [| split; [| split; [| split; [| split; [| split; [| split; [| split]]]]]]]];
    try (apply select_dtypes_kept; intros [?|?|?|?] m; reflexivity).
  - apply keep_rows_schema.
  - intros c' Hc'. destruct (dropna_frame_columns df c' Hc') as (c & Hc & ->).
    simpl. fold mask. rewrite Hn. apply Hlen. assumption.
  - apply nrows_dropna_frame.
  - rewrite nrows_dropna_frame.
    etransitivity; [apply filter_length_le |]. rewrite length_seq. apply le_n.
  - apply dropna_frame_clean. assumption.
  - apply dropna_frame_clean. assumption.
  - intros Hnone. unfold dropna_frame. fold mask.
    assert (Hall : forallb (fun b => b) mask = true).
    { apply forallb_forall. intros b Hb. subst mask. apply in_map_iff in Hb.
      destruct Hb as (i & <- & _). apply row_complete_without_null. assumption. }
    assert (Hid : forall l, (forall c, In c l -> In c df) ->
              map (fun c => (fst c, keep_rows mask (snd c))) l = l).
    { induction l as [|[c s] l IH]; intros Hsub; simpl; [reflexivity |].
      rewrite keep_rows_all; auto.
      - rewrite IH; [reflexivity |]. intros c0 H0. apply Hsub. right. assumption.
      - subst mask. rewrite mask_length. symmetry.
        apply (Hrect (c, s)). apply Hsub. left. reflexivity. }
    apply Hid. auto.
Qed.

Lemma dropna_frame_complete_witness :
  rectangular table_gaps
  /\ dropna_frame table_gaps
     = [("a"%string, Float64 [Some 2%Q; Some 3%Q]);
        ("city"%string, Object [Some "Rome"%string; Some "Oslo"%string]);
        ("ok"%string, Boolean [false; true])]
  /\ isnull_any (dropna_frame table_gaps) = false.
Proof.
  assert (H : rectangular table_gaps).
  { intros c [<- | [<- | [<- | []]]]; reflexivity. }
  split; [exact H |]. split; [reflexivity |].
  destruct (dropna_frame_complete table_gaps H) as (_ & _ & _ & _ & Hnone & _).
  exact Hnone.
Defined.

Lemma argmax_from_in {A K : Type} (gt : K -> K -> bool) (l : list (A * K)) (best : A * K) :
  In (argmax_from gt best l) (best :: l).
Proof.
  revert best. induction l as [|x l IH]; intros best; simpl; [auto |].
  destruct (IH (if gt (snd x) (snd best) then x else best)) as [H | H].
  - destruct (gt (snd x) (snd best)); rewrite <- H; auto.
  - auto.
Qed.

Lemma first_max_in {A K : Type} (gt : K -> K -> bool) (l : list (A * K)) (r : A * K) :
  first_max gt l = Some r -> In r l.
Proof.
  destruct l as [|x l]; simpl; [discriminate |].
  intros H. injection H as <-. apply argmax_from_in.
Qed.

Lemma insight_missing_clean (df : DataFrame) :
  (forall c, In c df -> isnull_sum (snd c) = 0) -> insight_missing df = Ok None.
Proof.
  intros H. unfold insight_missing, series_max.
  destruct (first_max gt_nat (isnull_sums df)) as [[c m]|] eqn:E; [| reflexivity].
  apply first_max_in in E. unfold isnull_sums in E. apply in_map_iff in E.
  destruct E as (x & Ex & Hx). injection Ex as _ <-.
  rewrite (H x Hx). reflexivity.
Qed.

Lemma hasnull_count {A : Type} (l : list (option A)) :
  existsb is_none l = true <-> 0 < count_none l.
Proof.
  unfold count_none. induction l as [|[x|] l IH]; simpl.
  - split; [discriminate | lia].
  - assumption.
  - split; [lia | reflexivity].
Qed.

Lemma series_hasnull_sum (s : Series) :
  series_hasnull s = true <-> 0 < isnull_sum s.
Proof.
  destruct s; simpl; try apply hasnull_count. split; [discriminate | lia].
Qed.

Lemma isnull_any_sum (df : DataFrame) :
  isnull_any df = true <-> exists c, In c df /\ 0 < isnull_sum (snd c).
Proof.
  unfold isnull_any. rewrite existsb_exists. split; intros (c & Hc & H); exists c;
    (split; [assumption |]); apply series_hasnull_sum; assumption.
Qed.

Lemma key_insights_missing_field
    (sort_values :
       list ((string * string) * option Q) -> list ((string * string) * option Q))
    (pearson : list (option Q) -> list (option Q) -> option Q)
    (parse_datetime : string -> option Z) (df : DataFrame) (r : InsightReport) :
  fst (key_insights sort_values pearson parse_datetime df) = Ok r ->
  insight_missing df = Ok (missing r).
Proof.
  unfold key_insights.
  destruct (insight_correlated sort_values _) as [i1|e]; cbn [bind]; [| discriminate].
  destruct (insight_missing df) as [i2|e]; cbn [bind]; [| discriminate].
  destruct (insight_imbalance (select_dtypes is_object df) df) as [i3|e];
    cbn [bind]; [| discriminate].
  destruct (insight_outliers (select_dtypes is_number df) df) as [i4|e];
    cbn [bind]; [| discriminate].
  destruct (insight_trend parse_datetime (select_dtypes is_number df) df) as [i5 df'].
  simpl. intros H. injection H as <-. reflexivity.
Qed.

(** X2.  Once the rows with missing cells are dropped (box ticked), the
    missing-data insight of lines 74-77 is never shown: on the cleaned
    table its guard is false, so no completed run of the script reports
    it. *)
Theorem no_missing_insight_after_drop (df : DataFrame) (Hrect : rectangular df) :
  insight_missing (cleaning true df) = Ok None
  /\ forall sort_values pearson parse_datetime r,
       fst (dashboard sort_values pearson parse_datetime true df) = Ok r ->
       missing r = None.
Proof.
  assert (H : insight_missing (cleaning true df) = Ok None).
  { unfold cleaning. apply insight_missing_clean.
    destruct (isnull_any df) eqn:E.
    - apply dropna_frame_clean. assumption.
    - intros c Hc. destruct (isnull_sum (snd c)) eqn:Hs; [reflexivity |].
      assert (T : isnull_any df = true).
      { apply isnull_any_sum. exists c. split; [assumption | lia]. }
      congruence. }
  split; [exact H |].
  intros sort_values pearson parse_datetime r Hr. unfold dashboard in Hr.
  apply key_insights_missing_field in Hr. rewrite H in Hr. congruence.
Qed.

Lemma no_missing_insight_after_drop_witness :
  rectangular table_gaps
  /\ insight_missing table_gaps = Ok (Some ("a"%string, 1))
  /\ insight_missing (cleaning true table_gaps) = Ok None.
Proof.
  assert (H : rectangular table_gaps).
  { intros c [<- | [<- | [<- | []]]]; reflexivity. }
  split; [exact H |]. split; [reflexivity |].
  destruct (no_missing_insight_after_drop table_gaps H) as [Hclean _].
  exact Hclean.
Defined.

Lemma cleaning_unticked (df : DataFrame) : cleaning false df = df.
Proof. unfold cleaning. destruct (isnull_any df); reflexivity. Qed.

(** X3.  In a run that completes with the box left unticked, the warning
    of line 28 and the missing-data insight of lines 75-77 go together: the
    insight is shown, with a positive count, exactly when line 27 detects a
    missing cell. *)
Theorem missing_warning_matches_insight
    (sort_values :
       list ((string * string) * option Q) -> list ((string * string) * option Q))
    (pearson : list (option Q) -> list (option Q) -> option Q)
    (parse_datetime : string -> option Z)
    (df : DataFrame) (Hnames : NoDup (columns df)) (r : InsightReport) :
  fst (dashboard sort_values pearson parse_datetime false df) = Ok r ->
  (isnull_any df = true <-> exists c n, missing r = Some (c, n) /\ 0 < n).
Proof.
  unfold dashboard. rewrite cleaning_unticked. intros Hr.
  apply key_insights_missing_field in Hr.
  rewrite isnull_any_sum.
  destruct (insight_missing_cases df Hnames)
    as [[-> E] | (pre & c & s & post & Ed & Hpre & Hpost & E)].
  - rewrite E in Hr. injection Hr as <-. split.
    + intros (c & [] & _).
    + intros (c & n & H & _). discriminate.
  - rewrite E in Hr. split.
    + intros (x & Hx & Hpos).
      assert (Hle : isnull_sum (snd x) <= isnull_sum s).
      { rewrite Ed in Hx. apply in_app_iff in Hx.
        rewrite Forall_forall in Hpre, Hpost.
        destruct Hx as [Hx | [<- | Hx]].
        - specialize (Hpre _ Hx). lia.
        - simpl. lia.
        - apply (Hpost _ Hx). }
      assert (Hs : (0 <? isnull_sum s) = true) by (apply Nat.ltb_lt; lia).
      rewrite Hs in Hr. injection Hr as <-.
      exists c, (isnull_sum s). split; [reflexivity | lia].
    + intros (c' & n & H & Hn). destruct (0 <? isnull_sum s) eqn:Hs.
      * apply Nat.ltb_lt in Hs. exists (c, s). split; [| assumption].
        rewrite Ed. apply in_elt.
      * injection Hr as Hr. congruence.
Qed.

Lemma missing_warning_matches_insight_witness :
  NoDup (columns table_mixed)
  /\ (exists r,
        fst (dashboard sort_desc pearson_table parse_iso_date false table_mixed) = Ok r
        /\ missing r = Some ("city"%string, 1))
  /\ forall r,
       fst (dashboard sort_desc pearson_table parse_iso_date false table_mixed) = Ok r ->
       (isnull_any table_mixed = true <-> exists c n, missing r = Some (c, n) /\ 0 < n).
Proof.
  assert (H : NoDup (columns table_mixed)) by distinct_names.
  split; [exact H |]. split; [eexists; split; vm_compute; reflexivity |].
  intros r.
  apply (missing_warning_matches_insight sort_desc pearson_table parse_iso_date
           table_mixed H r).
Defined.

(** ** Which exceptions end a run *)

Lemma assoc_get_in {V : Type} (d : list (string * V)) (k : string) (v : V) :
  NoDup (map fst d) -> In (k, v) d -> assoc_get d k = Ok v.
Proof.
  intros Hnd Hin. apply in_split in Hin. destruct Hin as (pre & post & ->).
  apply assoc_get_picked. assumption.
Qed.

Lemma insight_missing_total (df : DataFrame) :
  NoDup (columns df) -> exists r, insight_missing df = Ok r.
Proof.
  intros Hnd.
  destruct (insight_missing_cases df Hnd)
    as [[_ E] | (pre & c & s & post & _ & _ & _ & E)]; rewrite E.
  - eauto.
  - destruct (0 <? isnull_sum s); eauto.
Qed.

(** The imbalance block never raises; what it names is a text column. *)
Lemma insight_imbalance_total (df : DataFrame) :
  NoDup (columns df) ->
  (categorical_entries df = []
   /\ insight_imbalance (select_dtypes is_object df) df = Ok None)
  \/ exists c s,
       In (c, s) df /\ is_object s = true
       /\ insight_imbalance (select_dtypes is_object df) df
          = Ok (Some (c, mul_nan (top_frequency s) (Some 100%Q))).
Proof.
  intros Hnd. unfold insight_imbalance.
  destruct (select_dtypes is_object df) as [|c0 cols] eqn:Ecols.
  - left. split; [| reflexivity].
    unfold select_dtypes in Ecols. fold (categorical_entries df) in Ecols.
    destruct (categorical_entries df); [reflexivity | discriminate].
  - right. rewrite <- Ecols. rewrite cat_counts_selected by assumption. cbn [bind].
    set (d := map (fun x => (fst x, top_frequency (snd x))) (categorical_entries df)).
    assert (Hd : d <> []).
    { subst d. unfold select_dtypes in Ecols. fold (categorical_entries df) in Ecols.
      destruct (categorical_entries df); discriminate. }
    destruct (first_max_some gt_nan d Hd) as [[c k] Hr].
    unfold py_max. rewrite Hr. cbn [bind fst].
    pose proof (first_max_in _ _ _ Hr) as Hin.
    rewrite (assoc_get_in d c k); [| | assumption].
    + subst d. apply in_map_iff in Hin. destruct Hin as ([c' s] & E & Hx).
      simpl in E. injection E as -> <-.
      apply filter_In in Hx. destruct Hx as [Hx Hs].
      exists c, s. auto.
    + subst d. rewrite map_map. simpl. apply nodup_filter_keys. assumption.
Qed.

Lemma select_number_entries (df : DataFrame) :
  select_dtypes is_number df = [] <-> numeric_entries df = [].
Proof.
  unfold select_dtypes, numeric_entries.
  destruct (filter (fun c => is_number (snd c)) df); simpl; split;
    try reflexivity; discriminate.
Qed.

Lemma insight_correlated_raises (sort_values :
    list ((string * string) * option Q) -> list ((string * string) * option Q))
    (corr : option CorrFrame) (e : exn) :
  insight_correlated sort_values corr = Raise e ->
  (corr = None /\ e = NameError) \/ (corr <> None /\ e = ValueError).
Proof.
  destruct corr as [m|]; simpl.
  - unfold idxmax_float, idxmax.
    destruct (first_max Qgtb _); simpl; [discriminate |].
    intros H. injection H as <-. right. split; [discriminate | reflexivity].
  - intros H. injection H as <-. auto.
Qed.

Section RunFacts.

Variable sort_values :
  list ((string * string) * option Q) -> list ((string * string) * option Q).
Variable pearson : list (option Q) -> list (option Q) -> option Q.
Variable parse_datetime : string -> option Z.

(** X4.  On a table with distinct column names a run ends with an exception
    exactly when the first insight does, and with that exception: NameError
    when there is no numeric column ([corr] unbound at line 68), ValueError
    when there are numeric columns but no entry below 1 ([idxmax] of an
    empty series at line 70).  The blocks after it never raise in a run; in
    particular the unguarded [max] of line 96 is never reached with an empty
    dict. *)
Theorem run_fails_only_at_first_insight (df : DataFrame) (Hnames : NoDup (columns df)) :
  (forall e,
     fst (key_insights sort_values pearson parse_datetime df) = Raise e
     <-> insight_correlated sort_values (bound_corr pearson df) = Raise e)
  /\ (forall e,
        fst (key_insights sort_values pearson parse_datetime df) = Raise e ->
        (e = NameError /\ select_dtypes is_number df = [])
        \/ (e = ValueError /\ select_dtypes is_number df <> []))
  /\ ((exists r, fst (key_insights sort_values pearson parse_datetime df) = Ok r) ->
      exists c n, insight_outliers (select_dtypes is_number df) df = Ok (Some (c, n))).
Proof.
  assert (Hrun : forall i1,
            insight_correlated sort_values (bound_corr pearson df) = Ok i1 ->
            (exists r, fst (key_insights sort_values pearson parse_datetime df) = Ok r)
            /\ exists c n,
                 insight_outliers (select_dtypes is_number df) df = Ok (Some (c, n))).
  { intros i1 H1.
    assert (Hnum : numeric_entries df <> []).
    { intros E. apply select_number_entries in E. unfold bound_corr in H1.
      rewrite E in H1. discriminate. }
    destruct (insight_outliers_picks df Hnames Hnum) as (pre & c & s & post & _ & H4 & _).
    split; [| eauto].
    unfold key_insights. fold (bound_corr pearson df). rewrite H1. cbn [bind].
    destruct (insight_missing_total df Hnames) as [i2 H2]. rewrite H2. cbn [bind].
    destruct (insight_imbalance_total df Hnames) as [[_ H3] | (c3 & s3 & _ & _ & H3)];
      rewrite H3, H4; cbn [bind];
      destruct (insight_trend parse_datetime (select_dtypes is_number df) df);
      simpl; eauto. }
  assert (Hiff : forall e,
            fst (key_insights sort_values pearson parse_datetime df) = Raise e
            <-> insight_correlated sort_values (bound_corr pearson df) = Raise e).
  { intros e.
    destruct (insight_correlated sort_values (bound_corr pearson df)) as [i1|e1] eqn:H1.
    - destruct (Hrun i1 eq_refl) as [[r Hr] _]. rewrite Hr. split; discriminate.
    - unfold key_insights. fold (bound_corr pearson df). rewrite H1. simpl.
      split; intros H; injection H as ->; reflexivity. }
  split; [exact Hiff |]. split.
  - intros e He. apply Hiff in He. apply insight_correlated_raises in He.
    unfold bound_corr in He.
    destruct (select_dtypes is_number df); destruct He as [[H1 H2] | [H1 H2]];
      try congruence; [left | right]; split; congruence.
  - intros [r Hr].
    destruct (insight_correlated sort_values (bound_corr pearson df)) as [i1|e1] eqn:H1.
    + apply (Hrun i1 eq_refl).
    + assert (Hraise : fst (key_insights sort_values pearson parse_datetime df) = Raise e1).
      { apply Hiff. reflexivity. }
      congruence.
Qed.

Hypothesis sort_values_perm : forall l, Permutation (sort_values l) l.

(** X5.  A table with exactly one numeric column ends the run at line 70
    with ValueError: the correlation frame holds the single diagonal entry,
    which is 1 or NaN and does not pass [cor_pairs < 1]. *)
Theorem single_numeric_column_halts (df : DataFrame) (c : string) (vals : list (option Q)) :
  numeric_frame df = [(c, vals)] ->
  (pearson vals vals = None \/ exists x, pearson vals vals = Some x /\ (x == 1)%Q) ->
  key_insights sort_values pearson parse_datetime df = (Raise ValueError, df).
Proof.
  intros Hnf Hdiag. unfold key_insights.
  rewrite select_number_frame, Hnf. cbn [map fst].
  assert (H1 : insight_correlated sort_values (Some (DataFrame_corr pearson [(c, vals)]))
               = Raise ValueError).
  { unfold insight_correlated, DataFrame_corr, frame_abs, unstack. simpl.
    set (e := ((c, c), option_map Qabs (pearson vals vals))).
    assert (Hs : sort_values [e] = [e]).
    { apply Permutation_length_1_inv. apply Permutation_sym. apply sort_values_perm. }
    rewrite Hs. unfold below_one. simpl.
    assert (Hlt : lt_nan (option_map Qabs (pearson vals vals)) (Some 1%Q) = false).
    { destruct Hdiag as [-> | (x & -> & Hx)]; [reflexivity |]. simpl.
      apply Qltb_ge. rewrite Hx. discriminate. }
    rewrite Hlt. reflexivity. }
  rewrite H1. reflexivity.
Qed.

End RunFacts.

Lemma run_fails_only_at_first_insight_witness :
  NoDup (columns table_collinear)
  /\ (forall e,
        fst (key_insights sort_desc pearson_table parse_iso_date table_collinear) = Raise e
        <-> insight_correlated sort_desc (bound_corr pearson_table table_collinear) = Raise e).
Proof.
  assert (H : NoDup (columns table_collinear)) by distinct_names.
  split; [exact H |].
  destruct (run_fails_only_at_first_insight sort_desc pearson_table parse_iso_date
              table_collinear H) as (Hiff & _).
  exact Hiff.
Defined.

Lemma single_numeric_column_halts_witness :
  (forall l, Permutation (sort_desc l) l)
  /\ numeric_frame table_one_numeric = [("a"%string, [Some 1%Q; Some 2%Q; Some 3%Q])]
  /\ key_insights sort_desc pearson_table parse_iso_date table_one_numeric
     = (Raise ValueError, table_one_numeric).
Proof.
  split; [exact sort_desc_perm |]. split; [reflexivity |].
  apply (single_numeric_column_halts sort_desc pearson_table parse_iso_date sort_desc_perm
           table_one_numeric "a"%string [Some 1%Q; Some 2%Q; Some 3%Q]).
  - reflexivity.
  - right. exists 1%Q. split; reflexivity.
Defined.

Lemma key_insights_tie_order_witness :
  (forall l, Permutation (sort_desc l) l)
  /\ (forall l : list ((string * string) * option Q), Permutation (rev l) l)
  /\ fst (key_insights sort_desc pearson_table parse_iso_date table_mixed)
     <> fst (key_insights (@rev _) pearson_table parse_iso_date table_mixed)
  /\ same_up_to_ties
       (fst (key_insights sort_desc pearson_table parse_iso_date table_mixed))
       (fst (key_insights (@rev _) pearson_table parse_iso_date table_mixed))
  /\ snd (key_insights sort_desc pearson_table parse_iso_date table_mixed)
     = snd (key_insights (@rev _) pearson_table parse_iso_date table_mixed).
Proof.
  assert (Hrev : forall l : list ((string * string) * option Q), Permutation (rev l) l).
  { intros l. apply Permutation_sym. apply Permutation_rev. }
  split; [exact sort_desc_perm |]. split; [exact Hrev |].
  split; [vm_compute; intros H; discriminate H |].
  apply (key_insights_tie_order sort_desc (@rev _) pearson_table parse_iso_date
           sort_desc_perm Hrev table_mixed).
Defined.

(** ** Constant columns *)

Lemma filter_nothing {A : Type} (f : A -> bool) (l : list A) :
  (forall x, In x l -> f x = false) -> List.length (filter f l) = 0.
Proof.
  induction l as [|x l IH]; simpl; intros H; [reflexivity |].
  rewrite (H x) by (left; reflexivity). apply IH. intros y Hy. apply H. right. assumption.
Qed.

(** X8.  A numeric column whose present values are all equal has no
    outlier: both quartiles equal that value, the IQR is 0, and no cell is
    strictly outside the bounds. *)
Theorem constant_column_no_outliers (vals : list (option Q)) (c : Q) :
  (forall v, In (Some v) vals -> (v == c)%Q) ->
  count_outliers vals = 0.
Proof.
  intros Hc. unfold count_outliers. apply filter_nothing. intros cell Hcell.
  apply in_map_iff in Hcell. destruct Hcell as (o & <- & Ho).
  destruct o as [v|]; [| apply outlier_mask_missing].
  assert (Hall : forall w, In (Some w) vals -> float64 w = float64 c).
  { intros w Hw. apply float64_Qeq. apply Hc. assumption. }
  cbn [cell_float]. rewrite (Hall v Ho).
  apply outlier_mask_constant; apply quantile_constant; assumption.
Qed.

Lemma constant_column_no_outliers_witness :
  (forall v, In (Some v) [Some (7 # 1); None; Some (14 # 2); Some 7%Q] -> (v == 7)%Q)
  /\ count_outliers [Some (7 # 1); None; Some (14 # 2); Some 7%Q] = 0.
Proof.
  assert (H : forall v, In (Some v) [Some (7 # 1); None; Some (14 # 2); Some 7%Q]
                        -> (v == 7)%Q).
  { intros v [E | [E | [E | [E | []]]]]; try discriminate E;
      injection E as <-; reflexivity. }
  split; [exact H |].
  apply (constant_column_no_outliers _ 7%Q H).
Defined.

(** ** The dominance percentage *)

Lemma count_eqb_in (v : string) (l : list string) :
  In v l -> 0 < count_eqb String.eqb v l.
Proof.
  induction l as [|x l IH]; simpl; [tauto |].
  intros [-> | H].
  - rewrite String.eqb_refl. lia.
  - specialize (IH H). lia.
Qed.

Lemma count_eqb_le (v : string) (l : list string) :
  count_eqb String.eqb v l <= List.length l.
Proof.
  induction l as [|x l IH]; simpl; [lia |].
  destruct (String.eqb x v); simpl; lia.
Qed.

Lemma count_eqb_full (v : string) (l : list string) :
  count_eqb String.eqb v l = List.length l <-> forall w, In w l -> w = v.
Proof.
  induction l as [|x l IH]; simpl.
  - split; [intros _ w [] | reflexivity].
  - pose proof (count_eqb_le v l) as Hle.
    destruct (String.eqb x v) eqn:E.
    + apply String.eqb_eq in E. subst x. simpl. split.
      * intros H w [<- | Hw]; [reflexivity |]. apply IH; [lia | assumption].
      * intros H. f_equal. apply IH. intros w Hw. apply H. right. assumption.
    + apply String.eqb_neq in E. simpl. split; [lia |].
      intros H. exfalso. apply E. apply H. left. reflexivity.
Qed.

Lemma ratio_pos (a n : nat) : 0 < a -> (0 < ratio a n)%Q.
Proof. intros H. unfold ratio, Qlt. simpl. lia. Qed.

Lemma ratio_full (n : nat) : 0 < n -> (ratio n n == 1)%Q.
Proof.
  intros H. unfold ratio, Qeq. simpl. lia.
Qed.

Lemma ratio_one (a n : nat) : 0 < n -> (ratio a n == 1)%Q <-> a = n.
Proof.
  intros H. unfold ratio, Qeq. simpl. lia.
Qed.

(** X9.  On a table (distinct names, every text column holding a value,
    at least one text column) the dominance shown at line 85 is a
    percentage: above 0, at most 100, and equal to 100 exactly when all
    present cells of the named column hold the same value. *)
Theorem dominance_is_a_percentage (df : DataFrame)
    (Hnames : NoDup (columns df))
    (Hfull : forall c vals, In (c, Object vals) df -> dropna vals <> [])
    (Hsome : categorical_entries df <> []) :
  exists c vals d,
    In (c, Object vals) df
    /\ insight_imbalance (select_dtypes is_object df) df = Ok (Some (c, Some d))
    /\ (0 < d)%Q /\ (d <= 100)%Q
    /\ ((d == 100)%Q <-> exists v, forall w, In (Some w) vals -> w = v).
Proof.
  destruct (insight_imbalance_picks df Hnames Hfull Hsome)
    as (pre & c & vals & post & f & Ed & (v & Hv & Htop & Hf) & Hres & _ & _).
  assert (Hin : In (c, Object vals) df).
  { assert (H : In (c, Object vals) (categorical_entries df))
      by (rewrite Ed; apply in_elt).
    apply filter_In in H. tauto. }
  set (xs := dropna vals) in *.
  assert (Hvx : In v xs) by (apply in_dropna; assumption).
  assert (Hn : 0 < List.length xs) by (destruct xs; [destruct Hvx | simpl; lia]).
  pose proof (count_eqb_in v xs Hvx) as Hpos.
  pose proof (count_eqb_le v xs) as Hle.
  pose proof (ratio_pos _ (List.length xs) Hpos) as R0.
  assert (R1 : (ratio (count_eqb String.eqb v xs) (List.length xs) <= 1)%Q).
  { rewrite <- (ratio_full (List.length xs) Hn). apply ratio_le. assumption. }
  exists c, vals, (f * 100)%Q. split; [assumption |]. split; [assumption |].
  split; [lra |]. split; [lra |].
  split.
  - intros Hd. exists v. intros w Hw. apply in_dropna in Hw.
    assert (Hone : (ratio (count_eqb String.eqb v xs) (List.length xs) == 1)%Q) by lra.
    apply ratio_one in Hone; [| assumption].
    apply (count_eqb_full v xs); assumption.
  - intros (v' & Hall).
    assert (Hsame : count_eqb String.eqb v xs = List.length xs).
    { apply count_eqb_full. intros w Hw. apply in_dropna in Hw.
      rewrite (Hall w Hw). symmetry. apply Hall. assumption. }
    assert (Hone : (ratio (count_eqb String.eqb v xs) (List.length xs) == 1)%Q)
      by (apply ratio_one; assumption).
    lra.
Qed.

Lemma dominance_is_a_percentage_witness :
  NoDup (columns table_dominant)
  /\ (forall c vals, In (c, Object vals) table_dominant -> dropna vals <> [])
  /\ categorical_entries table_dominant <> []
  /\ exists c vals d,
       In (c, Object vals) table_dominant
       /\ insight_imbalance (select_dtypes is_object table_dominant) table_dominant
          = Ok (Some (c, Some d))
       /\ (0 < d)%Q /\ (d <= 100)%Q
       /\ ((d == 100)%Q <-> exists v, forall w, In (Some w) vals -> w = v).
Proof.
  assert (H : NoDup (columns table_dominant)) by distinct_names.
  assert (F : forall c vals, In (c, Object vals) table_dominant -> dropna vals <> []).
  { intros c vals [E | []]. injection E as <- <-. discriminate. }
  assert (S : categorical_entries table_dominant <> []) by discriminate.
  split; [exact H |]. split; [exact F |]. split; [exact S |].
  apply (dominance_is_a_percentage table_dominant H F S).
Defined.

Lemma argmax_from_nan_sticks {A : Type} (l : list (A * option Q)) (best : A * option Q) :
  snd best = None -> argmax_from gt_nan best l = best.
Proof.
  intros H. induction l as [|x l IH]; simpl; [reflexivity |].
  assert (E : gt_nan (snd x) (snd best) = false).
  { unfold gt_nan. rewrite H. apply lt_nan_missing_l. }
  rewrite E. assumption.
Qed.

Lemma top_frequency_blank (vals : list (option string)) :
  dropna vals = [] -> top_frequency (Object vals) = None.
Proof.
  intros H. unfold top_frequency, value_counts_normalized. rewrite H. reflexivity.
Qed.

(** X10.  The imbalance block of lines 81-85 never raises on a table with
    distinct column names: without text columns it reports nothing,
    otherwise it names a text column of the table.  When the first text
    column holds no value its frequency is NaN, no later column compares
    greater, and that column is named with a NaN dominance whatever the
    other columns hold. *)
Theorem imbalance_never_raises (df : DataFrame) (Hnames : NoDup (columns df)) :
  ((categorical_entries df = []
    /\ insight_imbalance (select_dtypes is_object df) df = Ok None)
   \/ exists c s,
        In (c, s) df /\ is_object s = true
        /\ insight_imbalance (select_dtypes is_object df) df
           = Ok (Some (c, mul_nan (top_frequency s) (Some 100%Q))))
  /\ (forall c vals rest,
        categorical_entries df = (c, Object vals) :: rest ->
        dropna vals = [] ->
        insight_imbalance (select_dtypes is_object df) df = Ok (Some (c, None))).
Proof.
  split; [apply insight_imbalance_total; assumption |].
  intros c vals rest Ed Hblank. unfold insight_imbalance.
  assert (Ecols : select_dtypes is_object df = c :: map fst rest).
  { unfold select_dtypes. fold (categorical_entries df). rewrite Ed. reflexivity. }
  rewrite cat_counts_selected by assumption. rewrite Ecols, Ed.
  cbn [bind map fst snd]. rewrite (top_frequency_blank vals Hblank).
  unfold py_max. cbn [first_max].
  rewrite argmax_from_nan_sticks by reflexivity.
  cbn [bind fst assoc_get]. rewrite String.eqb_refl. reflexivity.
Qed.

Lemma imbalance_never_raises_witness :
  NoDup (columns table_blank_category)
  /\ insight_imbalance (select_dtypes is_object table_blank_category) table_blank_category
     = Ok (Some ("c"%string, None)).
Proof.
  assert (H : NoDup (columns table_blank_category)) by distinct_names.
  split; [exact H |].
  destruct (imbalance_never_raises table_blank_category H) as [_ Hblank].
  apply (Hblank "c"%string [None] [("d"%string, Object [Some "x"%string])]); reflexivity.
Defined.

(** ** The time trend, once more *)

Lemma numeric_frame_app (l1 l2 : DataFrame) :
  numeric_frame (l1 ++ l2) = numeric_frame l1 ++ numeric_frame l2.
Proof.
  induction l1 as [|[c s] l1 IH]; simpl; [reflexivity |].
  destruct s; simpl; congruence.
Qed.

Lemma numeric_frame_converted (pre post : DataFrame) (c : string) (s : Series)
    (tv : list (option Z)) :
  is_number s = false ->
  numeric_frame (pre ++ (c, Datetime64 tv) :: post) = numeric_frame (pre ++ (c, s) :: post).
Proof.
  intros H. rewrite !numeric_frame_app. f_equal.
  destruct s; simpl; try reflexivity. discriminate.
Qed.

Lemma count_none_parsed (parse_datetime : string -> option Z) (vals : list (option string)) :
  fully_parses parse_datetime vals ->
  count_none (parsed_cells parse_datetime (Object vals)) = count_none vals.
Proof.
  unfold count_none. induction vals as [|[x|] vals IH]; intros H; simpl.
  - reflexivity.
  - destruct (parse_datetime x) eqn:E.
    + simpl. apply IH. intros s Hs. apply H. right. assumption.
    + exfalso. apply (H x); [left; reflexivity | assumption].
  - simpl. f_equal. apply IH. intros s Hs. apply H. right. assumption.
Qed.

Section TrendAgain.

Variable parse_datetime : string -> option Z.

(** What the loop of lines 101-114 leaves of a table: the same column
    names, the same numeric columns, the same number of missing cells in
    every column, and nothing for a second pass to change. *)
Lemma trend_pass_leaves (df : DataFrame) (Hnames : NoDup (columns df)) :
  let df' := snd (insight_trend parse_datetime (select_dtypes is_number df) df) in
  columns df' = columns df
  /\ numeric_frame df' = numeric_frame df
  /\ numeric_entries df' = numeric_entries df
  /\ isnull_sums df' = isnull_sums df
  /\ insight_trend parse_datetime (select_dtypes is_number df') df'
     = insight_trend parse_datetime (select_dtypes is_number df) df.
Proof.
  destruct (first_usable parse_datetime df) as [Hnone | (pre & c & s & post & Ed & Hu & Hpre)].
  - rewrite (insight_trend_none parse_datetime df Hnames Hnone). simpl.
    repeat split. apply insight_trend_none; assumption.
  - rewrite (insight_trend_first parse_datetime df pre post c s Hnames Ed Hpre Hu).
    cbn [snd].
    set (tv := parsed_cells parse_datetime s).
    set (df' := pre ++ (c, Datetime64 tv) :: post).
    assert (Hcols : columns df' = columns df).
    { unfold columns. subst df'. rewrite Ed, !map_app. reflexivity. }
    assert (Hnames' : NoDup (columns df')) by (rewrite Hcols; assumption).
    assert (Hs : is_number s = false).
    { destruct s; simpl in Hu; try reflexivity. destruct Hu. }
    assert (Hnum : numeric_frame df' = numeric_frame df).
    { subst df'. rewrite Ed. apply numeric_frame_converted. assumption. }
    split; [assumption |]. split; [assumption |]. split; [| split].
    + unfold numeric_entries. subst df'. rewrite Ed, !filter_app. simpl.
      rewrite Hs. reflexivity.
    + unfold isnull_sums. subst df'. rewrite Ed, !map_app. simpl.
      do 3 f_equal. subst tv.
      destruct s as [vals|vals|vals|vals]; simpl in Hu |- *; try reflexivity;
        try destruct Hu.
      apply (count_none_parsed parse_datetime vals Hu).
    + rewrite (insight_trend_first parse_datetime df' pre post c (Datetime64 tv)
                 Hnames' eq_refl Hpre I).
      cbn [parsed_cells]. unfold trend_of. rewrite Hnum. reflexivity.
Qed.

(** X11.  The loop of lines 101-114 is idempotent on the table: run again
    on the table it left behind, with the numeric columns recomputed, it
    selects the same column, plots the same points and changes nothing. *)
Theorem trend_pass_idempotent (df : DataFrame) (Hnames : NoDup (columns df)) :
  insight_trend parse_datetime
    (select_dtypes is_number
       (snd (insight_trend parse_datetime (select_dtypes is_number df) df)))
    (snd (insight_trend parse_datetime (select_dtypes is_number df) df))
  = insight_trend parse_datetime (select_dtypes is_number df) df.
Proof.
  destruct (trend_pass_leaves df Hnames) as (_ & _ & _ & _ & H). exact H.
Qed.

End TrendAgain.

Lemma trend_pass_idempotent_witness :
  NoDup (columns table_trend)
  /\ snd (insight_trend parse_iso_date (select_dtypes is_number table_trend) table_trend)
     <> table_trend
  /\ insight_trend parse_iso_date
       (select_dtypes is_number
          (snd (insight_trend parse_iso_date (select_dtypes is_number table_trend)
                  table_trend)))
       (snd (insight_trend parse_iso_date (select_dtypes is_number table_trend) table_trend))
     = insight_trend parse_iso_date (select_dtypes is_number table_trend) table_trend.
Proof.
  assert (H : NoDup (columns table_trend)) by distinct_names.
  split; [exact H |]. split; [vm_compute; intros E; discriminate E |].
  apply (trend_pass_idempotent parse_iso_date table_trend H).
Defined.

(** ** Two runs of the script *)





Section LibraryAnswers.

Variables parse1 parse2 : string -> option Z.




End LibraryAnswers.


Section TwoRuns.

Variable sort_values :
  list ((string * string) * option Q) -> list ((string * string) * option Q).
Variable pearson : list (option Q) -> list (option Q) -> option Q.
Variable parse_datetime : string -> option Z.




End TwoRuns.

(** The one insight a pass over the left-behind table may report otherwise:
    the column of dates, converted by the first run, is no longer among the
    text columns, so the imbalance is taken over the others.  (The script
    itself reloads the table at line 15 before every run.) *)
Lemma second_pass_imbalance :
  option_map imbalance
    (match fst (key_insights sort_desc pearson_table parse_iso_date table_dated) with
     | Ok r => Some r
     | Raise _ => None
     end)
  = Some (Some ("day"%string, Some (300 # 3)))
  /\ option_map imbalance
       (match fst (key_insights sort_desc pearson_table parse_iso_date
                     (snd (key_insights sort_desc pearson_table parse_iso_date table_dated)))
        with
        | Ok r => Some r
        | Raise _ => None
        end)
     = Some (Some ("city"%string, Some (200 # 3))).
Proof. split; vm_compute; reflexivity. Qed.


